(** * aiohttp_admin: resource handlers, type mappings and the schema registry

    Shallow embedding of [backends/sa.py], [backends/grpc.py] and
    [contrib/admin.py].  Each request handler is a computation in a small
    state-and-exception monad: the state holds the table's rows, the
    server-side id sequence and a log of the effects performed (permission
    checks, body reads, connection acquire/release, SQL statements, RPC
    calls).  The collaborators the handlers only call (the security policy,
    JSON decoding, query-string parsing, pagination, the SQL engine's filter
    and ORDER BY, the RPC client) are parameters gathered in type classes. *)

From Stdlib Require Import ZArith List String Ascii Bool Lia Permutation.
From Stdlib Require Import DecimalString Sorted RelationClasses.
From Stdlib Require DecimalPos DecimalZ.
Import ListNotations.

Set Warnings "-register-all".

Open Scope string_scope.
Open Scope list_scope.

(** ** Values, rows and JSON *)

Inductive value :=
| VNull
| VInt (z : Z)
| VStr (s : string)
| VBool (b : bool).

Definition value_eqb (a b : value) : bool :=
  match a, b with
  | VNull, VNull => true
  | VInt x, VInt y => Z.eqb x y
  | VStr x, VStr y => String.eqb x y
  | VBool x, VBool y => Bool.eqb x y
  | _, _ => false
  end.

(** A fetched record / a Python dict built from it: column key to value,
    in column order. *)
Definition row := list (string * value).
Definition payload := list (string * value).

Inductive json :=
| JVal (v : value)
| JArr (l : list json)
| JObj (l : list (string * json)).

Fixpoint assoc_get {A} (k : string) (l : list (string * A)) : option A :=
  match l with
  | [] => None
  | (k', v) :: l' => if String.eqb k k' then Some v else assoc_get k l'
  end.

(** [d[k] = v] on a Python dict: an existing key keeps its position. *)
Fixpoint dict_set {A} (k : string) (v : A) (d : list (string * A))
  : list (string * A) :=
  match d with
  | [] => [(k, v)]
  | (k', v') :: d' =>
      if String.eqb k k' then (k, v) :: d' else (k', v') :: dict_set k v d'
  end.

Definition json_of_row (r : row) : json :=
  JObj (map (fun kv => (fst kv, JVal (snd kv))) r).

(** [str(n)] for a Python int. *)
Definition str_Z (z : Z) : string := NilZero.string_of_int (Z.to_int z).

(** ** Python's [int(text)] on a string

    A Python [str] is represented by its UTF-8 encoding, so that the byte
    order of two strings is Python's code-point order.  [int(s)]
    ([PyLong_FromUnicodeObject]) first rewrites the text to ASCII
    ([_PyUnicode_TransformDecimalAndSpaceToASCII]) and then parses the
    result with [PyLong_FromString] in base 10. *)

(** [sys.get_int_max_str_digits()]: 4300 by default since CPython 3.11;
    0 (no limit) gives the behaviour of earlier versions. *)
Definition max_str_digits : nat := 4300.

Definition byte_val (c : ascii) : Z := Z.of_nat (nat_of_ascii c).

Definition utf8_cont (c : ascii) : bool :=
  (128 <=? byte_val c)%Z && (byte_val c <? 192)%Z.

(** UTF-8 decoding into code points.  [None] for byte strings that encode
    no [str] (overlong forms, surrogates, code points above U+10FFFF,
    truncated sequences); they do not arise as Python strings. *)
Fixpoint utf8_decode (l : list ascii) : option (list Z) :=
  match l with
  | [] => Some []
  | c :: l' =>
      let b := byte_val c in
      if (b <? 128)%Z then option_map (cons b) (utf8_decode l')
      else if (192 <=? b)%Z && (b <? 224)%Z then
        match l' with
        | c1 :: l1 =>
            let cp := ((b - 192) * 64 + (byte_val c1 - 128))%Z in
            if utf8_cont c1 && (128 <=? cp)%Z
            then option_map (cons cp) (utf8_decode l1) else None
        | [] => None
        end
      else if (224 <=? b)%Z && (b <? 240)%Z then
        match l' with
        | c1 :: c2 :: l2 =>
            let cp := (((b - 224) * 64 + (byte_val c1 - 128)) * 64
                       + (byte_val c2 - 128))%Z in
            if utf8_cont c1 && utf8_cont c2 && (2048 <=? cp)%Z
               && negb ((55296 <=? cp)%Z && (cp <=? 57343)%Z)
            then option_map (cons cp) (utf8_decode l2) else None
        | _ => None
        end
      else if (240 <=? b)%Z && (b <? 248)%Z then
        match l' with
        | c1 :: c2 :: c3 :: l3 =>
            let cp := ((((b - 240) * 64 + (byte_val c1 - 128)) * 64
                        + (byte_val c2 - 128)) * 64 + (byte_val c3 - 128))%Z in
            if utf8_cont c1 && utf8_cont c2 && utf8_cont c3
               && (65536 <=? cp)%Z && (cp <=? 1114111)%Z
            then option_map (cons cp) (utf8_decode l3) else None
        | _ => None
        end
      else None
  end.

(** [Py_UNICODE_ISSPACE]: the code points [str.isspace()] accepts. *)
Definition unicode_isspace (cp : Z) : bool :=
  ((9 <=? cp) && (cp <=? 13))%Z || ((28 <=? cp) && (cp <=? 32))%Z
  || (cp =? 133)%Z || (cp =? 160)%Z || (cp =? 5760)%Z
  || ((8192 <=? cp) && (cp <=? 8202))%Z || (cp =? 8232)%Z || (cp =? 8233)%Z
  || (cp =? 8239)%Z || (cp =? 8287)%Z || (cp =? 12288)%Z.

(** The first code point (digit zero) of every run of ten decimal digits
    (general category Nd) of Unicode 15.0, the database of CPython 3.12
    and 3.13. *)
Definition decimal_zeros : list Z :=
  [0x30; 0x660; 0x6F0; 0x7C0; 0x966; 0x9E6; 0xA66; 0xAE6; 0xB66; 0xBE6;
   0xC66; 0xCE6; 0xD66; 0xDE6; 0xE50; 0xED0; 0xF20; 0x1040; 0x1090; 0x17E0;
   0x1810; 0x1946; 0x19D0; 0x1A80; 0x1A90; 0x1B50; 0x1BB0; 0x1C40; 0x1C50;
   0xA620; 0xA8D0; 0xA900; 0xA9D0; 0xA9F0; 0xAA50; 0xABF0; 0xFF10;
   0x104A0; 0x10D30; 0x11066; 0x110F0; 0x11136; 0x111D0; 0x112F0; 0x11450;
   0x114D0; 0x11650; 0x116C0; 0x11730; 0x118E0; 0x11950; 0x11C50; 0x11D50;
   0x11DA0; 0x11F50; 0x16A60; 0x16AC0; 0x16B50; 0x1D7CE; 0x1D7D8; 0x1D7E2;
   0x1D7EC; 0x1D7F6; 0x1E140; 0x1E2F0; 0x1E4F0; 0x1E950; 0x1FBF0]%Z.

(** [Py_UNICODE_TODECIMAL]: the value of a decimal digit, [None] (-1) for
    any other code point. *)
Definition unicode_todecimal (cp : Z) : option Z :=
  match find (fun z => (z <=? cp)%Z && (cp <? z + 10)%Z) decimal_zeros with
  | Some z => Some (cp - z)%Z
  | None => None
  end.

Fixpoint transform_loop (cps : list Z) : list ascii :=
  match cps with
  | [] => []
  | ch :: r =>
      if (ch <? 127)%Z then ascii_of_nat (Z.to_nat ch) :: transform_loop r
      else if unicode_isspace ch then " "%char :: transform_loop r
      else match unicode_todecimal ch with
           | Some d => ascii_of_nat (48 + Z.to_nat d) :: transform_loop r
           | None => ["?"%char]
           end
  end.

(** [_PyUnicode_TransformDecimalAndSpaceToASCII]: an all-ASCII text is
    returned as it is; otherwise a code point below 127 stays, whitespace
    becomes a space, a decimal digit its ASCII digit, and anything else
    becomes ['?'] and ends the text. *)
Definition transform_decimal_and_space (cps : list Z) : list ascii :=
  if forallb (fun ch => (ch <? 128)%Z) cps
  then map (fun ch => ascii_of_nat (Z.to_nat ch)) cps
  else transform_loop cps.

(** [Py_ISSPACE]: the ASCII whitespace [PyLong_FromString] skips (space
    and 9-13). *)
Definition is_py_space (c : ascii) : bool :=
  let n := nat_of_ascii c in
  (n =? 32)%nat || ((9 <=? n)%nat && (n <=? 13)%nat).

Fixpoint drop_space (l : list ascii) : list ascii :=
  match l with
  | c :: l' => if is_py_space c then drop_space l' else l
  | [] => []
  end.

Definition py_strip (l : list ascii) : list ascii :=
  rev (drop_space (rev (drop_space l))).

Definition digit_val (c : ascii) : option Z :=
  let n := nat_of_ascii c in
  if ((48 <=? n)%nat && (n <=? 57)%nat) then Some (Z.of_nat (n - 48)) else None.

(** Digits after the first one: [('_'? digit)*]. *)
Fixpoint py_digits (l : list ascii) (acc : Z) : option Z :=
  match l with
  | [] => Some acc
  | c :: l' =>
      match digit_val c with
      | Some d => py_digits l' (acc * 10 + d)
      | None =>
          if Ascii.eqb c "_"%char then
            match l' with
            | c2 :: l'' =>
                match digit_val c2 with
                | Some d => py_digits l'' (acc * 10 + d)
                | None => None
                end
            | [] => None
            end
          else None
      end
  end.

Definition py_unsigned (l : list ascii) : option Z :=
  match l with
  | c :: l' =>
      match digit_val c with
      | Some d => py_digits l' d
      | None => None
      end
  | [] => None
  end.

(** The syntax [PyLong_FromString] accepts in base 10: surrounding
    whitespace, an optional sign, then decimal digits where a single
    underscore may separate two digits. *)
Definition py_long_parse (l : list ascii) : option Z :=
  match py_strip l with
  | c :: l =>
      if Ascii.eqb c "-"%char then option_map Z.opp (py_unsigned l)
      else if Ascii.eqb c "+"%char then py_unsigned l
      else py_unsigned (c :: l)
  | [] => None
  end.

Definition count_digits (l : list ascii) : nat :=
  List.length (filter (fun c => match digit_val c with Some _ => true | None => false end) l).

(** [PyLong_FromString(s, &end, 10)]: the syntax above, and a ValueError
    for more than [max_str_digits] digits when the limit is on. *)
Definition py_long_from_string (l : list ascii) : option Z :=
  match py_long_parse l with
  | Some z =>
      if (0 <? max_str_digits)%nat && (max_str_digits <? count_digits l)%nat
      then None else Some z
  | None => None
  end.

(** [int(s)]; ValueError is [None]. *)
Definition py_int (s : string) : option Z :=
  match utf8_decode (list_ascii_of_string s) with
  | Some cps => py_long_from_string (transform_decimal_and_space cps)
  | None => None
  end.

(** [try: entity_id = int(entity_id) except ValueError: pass] *)
Definition coerce_entity_id (s : string) : value :=
  match py_int s with
  | Some z => VInt z
  | None => VStr s
  end.

(** ** Tables, column types and the static descriptor tables *)

(** The SQLAlchemy type classes the code names, and any other one
    (a subclass such as [BigInteger] or [String] included: the lookup is on
    [type(column.type)], the exact class). *)
Inductive satype :=
| Integer | Text | Float | Date | Boolean | PgJSON
| OtherType (cls : string).

Definition satype_eqb (a b : satype) : bool :=
  match a, b with
  | Integer, Integer | Text, Text | Float, Float | Date, Date
  | Boolean, Boolean | PgJSON, PgJSON => true
  | OtherType x, OtherType y => String.eqb x y
  | _, _ => false
  end.

(** [contrib.constants.ReactComponent]: the members the mappings use. *)
Inductive ReactComponent :=
| TEXT_FIELD | NUMBER_FIELD | DATE_FIELD | BOOLEAN_FIELD | JSON_FIELD
| TEXT_INPUT | DATE_INPUT | NULLABLE_BOOLEAN_INPUT | JSON_INPUT.

Definition FIELD_TYPES : list (satype * ReactComponent) :=
  [(Integer, TEXT_FIELD); (Text, TEXT_FIELD); (Float, NUMBER_FIELD);
   (Date, DATE_FIELD); (Boolean, BOOLEAN_FIELD); (PgJSON, JSON_FIELD)].

Definition INPUT_TYPES : list (satype * ReactComponent) :=
  [(Integer, TEXT_INPUT); (Text, TEXT_INPUT); (Float, TEXT_INPUT);
   (Date, DATE_INPUT); (Boolean, NULLABLE_BOOLEAN_INPUT); (PgJSON, JSON_INPUT)].

(** [dict.get(key, default)] on a dict keyed by a type class. *)
Fixpoint type_dict_get (d : list (satype * ReactComponent)) (t : satype)
  (default : ReactComponent) : ReactComponent :=
  match d with
  | [] => default
  | (t', v) :: d' => if satype_eqb t t' then v else type_dict_get d' t default
  end.

Record Column := mkColumn {
  c_name : string;
  c_type : satype;
  c_pk : bool
}.

(** An [sa.Table]: its columns in [table.c] order. *)
Record Table := mkTable {
  t_cols : list Column
}.

(** The keys of [table.primary_key]. *)
Definition table_primary_key (t : Table) : list string :=
  map c_name (filter c_pk (t_cols t)).

Definition in_keys (k : string) (ks : list string) : bool :=
  existsb (String.eqb k) ks.

(** ** Requests, responses, exceptions and permissions *)

(** [request.match_info["entity_id"]], the raw body [await request.read()]
    and [request.query]. *)
Record Request := mkRequest {
  entity_id : string;
  body : string;
  query : list (string * string)
}.

Record Response := mkResponse {
  resp_body : json;
  resp_headers : list (string * string)
}.

Definition json_response (b : json) (headers : list (string * string))
  : Response := mkResponse b headers.

Definition status_deleted : json :=
  JObj [("status", JVal (VStr "deleted"))].

(** [{"status": {"error": str(e)}}] *)
Definition status_error (msg : string) : json :=
  JObj [("status", JObj [("error", JVal (VStr msg))])].

(** The exceptions the handlers raise or let through.  [GrpcError msg]
    carries [str(e)]; [OtherError] stands for any other exception an
    external collaborator may raise. *)
Inductive exn :=
| ObjectNotFound (arg : value)
| GrpcError (msg : string)
| HTTPForbidden
| ValidationError
| TypeError
| KeyError
| IndexError
| OtherError (msg : string).

Inductive Permissions := view | add | edit | delete.

(** ** The effect log *)

Inductive event :=
| ERequire (p : Permissions)
| EReadBody
| EAcquire
| ERelease
| ESelect (k : value)
| EInsert
| EUpdate (k : value)
| EDelete (k : value)
| ECount
| EFetch
| ECommit
| ERpcCreate
| ERpcUpdate (k : value)
| ERpcDelete (k : value).

(** Events that touch the database: the pool or a statement. *)
Definition db_event (e : event) : bool :=
  match e with
  | EAcquire | ERelease | ESelect _ | EInsert | EUpdate _ | EDelete _
  | ECount | EFetch | ECommit => true
  | _ => false
  end.

Record St := mkSt {
  st_rows : list row;
  st_seq : Z;
  st_log : list event
}.

Definition log (e : event) (st : St) : St :=
  mkSt (st_rows st) (st_seq st) (st_log st ++ [e]).

(** ** The handler monad: state and Python exceptions *)

Definition M (A : Type) : Type := St -> (exn + A) * St.

Definition ret {A} (a : A) : M A := fun st => (inr a, st).

Definition bind {A B} (m : M A) (k : A -> M B) : M B :=
  fun st =>
    match m st with
    | (inl e, st') => (inl e, st')
    | (inr a, st') => k a st'
    end.

Definition raise {A} (e : exn) : M A := fun st => (inl e, st).

Definition lift {A} (r : exn + A) : M A := fun st => (r, st).

Definition emit (e : event) : M unit := fun st => (inr tt, log e st).

Notation "x <- m ;; k" := (bind m (fun x => k))
  (at level 61, m at next level, right associativity).

(** [async with self.pool.acquire() as conn:] releases on every exit. *)
Definition with_conn {A} (body : M A) : M A :=
  fun st =>
    let '(r, st') := body (log EAcquire st) in (r, log ERelease st').

(** [dict(rec)]: [TypeError] on [None]. *)
Definition dict_of (rec : option row) : M row :=
  match rec with
  | Some r => ret r
  | None => raise TypeError
  end.

(** ** Resources and validators *)

(** The trafaret built by [table_to_trafaret]: the keys it accepts. *)
Record trafaret := mkTrafaret { tr_keys : list string }.

(** Modelled from the spec: [table_to_trafaret] (sa_utils, not among the
    sources) builds the payload schema of a table from its columns; with
    [skip_pk] the primary key is excluded from it. *)
Definition table_to_trafaret (t : Table) (pk : string) (skip_pk : bool)
  : trafaret :=
  mkTrafaret
    (filter (fun n => negb (skip_pk && String.eqb n pk)) (map c_name (t_cols t))).

(** [fields] as passed to the resource: [None] or ["*"] or a list of keys. *)
Inductive FieldSel := FAll | FNames (l : list string).

Record Resource := mkResource {
  r_table : Table;
  r_pk : string;
  r_fields : option FieldSel;
  r_create_validator : trafaret;
  r_update_validator : trafaret
}.

(** [PGResource.__init__] (inherited by every variant):
    [self._pk = table.primary_key.columns.values()[0]]. *)
Definition pg_init (t : Table) (fields : option FieldSel) (skip_pk : bool)
  : exn + Resource :=
  match filter c_pk (t_cols t) with
  | c :: _ =>
      let pk := c_name c in
      inr (mkResource t pk fields
             (table_to_trafaret t pk skip_pk)
             (table_to_trafaret t pk skip_pk))
  | [] => inl IndexError
  end.

(** ** External collaborators *)

Inductive SortDir := ASC | DESC.

(** The result of [validate_query]: the parsed [_filters] (an empty list
    when absent, both being falsy) and the rest of the query. *)
Record QuerySpec := mkQuerySpec {
  q_filters : list (string * value);
  q_params : list (string * string)
}.

(** The result of [calc_pagination]. *)
Record Paging := mkPaging {
  offset : nat;
  limit : nat;
  sort_field : string;
  sort_dir : SortDir
}.

(** The collaborators of the SQL handlers: [security.require]'s policy,
    the JSON decoding in [validate_payload], [validate_query],
    [calc_pagination], the WHERE clause [create_filter] builds, the
    database's ORDER BY, and the database's comparison of a primary-key
    cell with a bound parameter ([self._pk == entity_id]). *)
Class Backend := {
  permits : Request -> Permissions -> bool;
  parse_payload : string -> option payload;
  validate_query : list (string * string) -> list string -> exn + QuerySpec;
  calc_pagination : QuerySpec -> string -> Paging;
  create_filter : Table -> list (string * value) -> row -> bool;
  sql_order : string -> SortDir -> list row -> list row;
  pk_match : value -> value -> bool
}.

(** [backends/grpc.py]: the abstract RPC client. *)
Class GrpcClient := {
  client_update : value -> payload -> exn + unit;
  client_create : payload -> exn + value;
  client_delete : value -> exn + unit
}.

Section Handlers.
Context `{B : Backend}.

(** [await require(request, permission)] *)
Definition require (req : Request) (p : Permissions) : M unit :=
  _ <- emit (ERequire p) ;;
  if permits req p then ret tt else raise HTTPForbidden.

(** [await request.read()] *)
Definition read_body (req : Request) : M string :=
  _ <- emit EReadBody ;; ret (body req).

(** Modelled from the spec: [validate_payload] (utils, not among the
    sources) decodes the raw body and checks it against the trafaret,
    raising a validation error on malformed input or a key the schema
    does not have. *)
Definition validate_payload (raw : string) (tr : trafaret) : exn + payload :=
  match parse_payload raw with
  | None => inl ValidationError
  | Some d =>
      if forallb (fun kv => in_keys (fst kv) (tr_keys tr)) d
      then inr d else inl ValidationError
  end.

(** *** The database *)

Definition row_matches (pk : string) (k : value) (r : row) : bool :=
  match assoc_get pk r with
  | Some v => pk_match v k
  | None => false
  end.

(** [UPDATE ... SET data]: each column named in [data] takes its value. *)
Definition update_row (data : payload) (r : row) : row :=
  map (fun kv => (fst kv, match assoc_get (fst kv) data with
                          | Some v => v
                          | None => snd kv
                          end)) r.

(** The row [INSERT ... VALUES (data)] stores: the primary key, when absent
    from [data], takes the next value of the sequence; other absent columns
    are NULL. *)
Definition build_row (t : Table) (pk : string) (data : payload) (seq : Z) : row :=
  map (fun c => (c_name c,
                 match assoc_get (c_name c) data with
                 | Some v => v
                 | None => if String.eqb (c_name c) pk then VInt seq else VNull
                 end)) (t_cols t).

Definition generates_pk (pk : string) (data : payload) : bool :=
  match assoc_get pk data with Some _ => false | None => true end.

(** [SELECT * WHERE pk = k], first record. *)
Definition q_select_pk (pk : string) (k : value) : M (option row) :=
  fun st => (inr (find (row_matches pk k) (st_rows st)), log (ESelect k) st).

(** [UPDATE ... WHERE pk = k RETURNING *], first record. *)
Definition q_update_pk (pk : string) (data : payload) (k : value)
  : M (option row) :=
  fun st =>
    (inr (option_map (update_row data) (find (row_matches pk k) (st_rows st))),
     mkSt (map (fun r => if row_matches pk k r then update_row data r else r)
               (st_rows st))
          (st_seq st) (st_log st ++ [EUpdate k])).

(** [DELETE ... WHERE pk = k] *)
Definition q_delete_pk (pk : string) (k : value) : M unit :=
  fun st =>
    (inr tt,
     mkSt (filter (fun r => negb (row_matches pk k r)) (st_rows st))
          (st_seq st) (st_log st ++ [EDelete k])).

(** [INSERT ... VALUES (data) RETURNING *] *)
Definition q_insert (t : Table) (pk : string) (data : payload) : M row :=
  fun st =>
    let r := build_row t pk data (st_seq st) in
    (inr r,
     mkSt (st_rows st ++ [r])
          (if generates_pk pk data then st_seq st + 1 else st_seq st)
          (st_log st ++ [EInsert])).

(** [INSERT ... VALUES (data)] and the cursor's [lastrowid]: the generated
    id, or 0 when the statement generated none. *)
Definition q_insert_lastrowid (t : Table) (pk : string) (data : payload)
  : M value :=
  fun st =>
    let lastrowid := if generates_pk pk data then st_seq st else 0%Z in
    let '(_, st') := q_insert t pk data st in (inr (VInt lastrowid), st').

(** [SELECT count() FROM (query)] *)
Definition q_count (sel : row -> bool) : M Z :=
  fun st => (inr (Z.of_nat (List.length (filter sel (st_rows st)))), log ECount st).

(** [query.offset(o).limit(l).order_by(dir(field))]: SQL applies ORDER BY
    before OFFSET and LIMIT. *)
Definition q_fetch (sel : row -> bool) (p : Paging) : M (list row) :=
  fun st =>
    (inr (firstn (limit p)
            (skipn (offset p)
               (sql_order (sort_field p) (sort_dir p) (filter sel (st_rows st))))),
     log EFetch st).

Definition q_commit : M unit := emit ECommit.

(** [if filters: query = create_filter(...) else: query = table.select()] *)
Definition list_selection (t : Table) (filters : list (string * value))
  : row -> bool :=
  match filters with
  | [] => fun _ => true
  | _ => create_filter t filters
  end.

Definition not_found_msg (entity_id : string) : value :=
  VStr (String.append "Entity with id: "
          (String.append entity_id " not found")).

(** *** PGResource *)

Definition pg_list (r : Resource) (req : Request) : M Response :=
  _ <- require req view ;;
  let columns_names := map c_name (t_cols (r_table r)) in
  q <- lift (validate_query (query req) columns_names) ;;
  let paging := calc_pagination q (r_pk r) in
  let filters := q_filters q in
  res <- with_conn (
    let sel := list_selection (r_table r) filters in
    count <- q_count sel ;;
    recs <- q_fetch sel paging ;;
    ret (count, recs)) ;;
  ret (json_response (JArr (map json_of_row (snd res)))
         [("X-Total-Count", str_Z (fst res))]).

Definition pg_detail (r : Resource) (req : Request) : M Response :=
  _ <- require req view ;;
  let eid := entity_id req in
  rec <- with_conn (q_select_pk (r_pk r) (VStr eid)) ;;
  match rec with
  | None => raise (ObjectNotFound (not_found_msg eid))
  | Some entity => ret (json_response (json_of_row entity) [])
  end.

Definition pg_create (r : Resource) (req : Request) : M Response :=
  _ <- require req add ;;
  raw <- read_body req ;;
  data <- lift (validate_payload raw (r_create_validator r)) ;;
  row0 <- with_conn (
    row0 <- q_insert (r_table r) (r_pk r) data ;;
    _ <- q_commit ;;
    ret row0) ;;
  ret (json_response (json_of_row row0) []).

Definition pg_update (r : Resource) (req : Request) : M Response :=
  _ <- require req edit ;;
  let eid := entity_id req in
  raw <- read_body req ;;
  data <- lift (validate_payload raw (r_update_validator r)) ;;
  rec <- with_conn (
    rec <- q_select_pk (r_pk r) (VStr eid) ;;
    match rec with
    | None => raise (ObjectNotFound (not_found_msg eid))
    | Some _ =>
        rec <- q_update_pk (r_pk r) data (VStr eid) ;;
        _ <- q_commit ;;
        ret rec
    end) ;;
  entity <- dict_of rec ;;
  ret (json_response (json_of_row entity) []).

Definition pg_delete (r : Resource) (req : Request) : M Response :=
  _ <- require req delete ;;
  let eid := entity_id req in
  _ <- with_conn (
    _ <- q_delete_pk (r_pk r) (VStr eid) ;;
    q_commit) ;;
  ret (json_response status_deleted []).

(** *** AsyncpgResource *)

(** [{"id": rec[self.primary_key], **rec}] *)
Definition with_id (pk : string) (rec : row) : exn + row :=
  match assoc_get pk rec with
  | Some v => inr (fold_left (fun d kv => dict_set (fst kv) (snd kv) d) rec [("id", v)])
  | None => inl KeyError
  end.

Fixpoint map_with_id (pk : string) (recs : list row) : exn + list row :=
  match recs with
  | [] => inr []
  | rec :: recs' =>
      match with_id pk rec, map_with_id pk recs' with
      | inr e, inr es => inr (e :: es)
      | inl x, _ => inl x
      | _, inl x => inl x
      end
  end.

Definition asyncpg_list (r : Resource) (req : Request) : M Response :=
  _ <- require req view ;;
  let columns_names := map c_name (t_cols (r_table r)) in
  q <- lift (validate_query (query req) columns_names) ;;
  let paging := calc_pagination q (r_pk r) in
  let filters := q_filters q in
  res <- with_conn (
    let sel := list_selection (r_table r) filters in
    count <- q_count sel ;;
    recs <- q_fetch sel paging ;;
    entities <- lift (map_with_id (r_pk r) recs) ;;
    ret (count, entities)) ;;
  ret (json_response (JArr (map json_of_row (snd res)))
         [("X-Total-Count", str_Z (fst res))]).

Definition asyncpg_detail (r : Resource) (req : Request) : M Response :=
  _ <- require req view ;;
  let eid := coerce_entity_id (entity_id req) in
  rec <- with_conn (q_select_pk (r_pk r) eid) ;;
  match rec with
  | None => raise (ObjectNotFound eid)
  | Some entity => ret (json_response (json_of_row entity) [])
  end.

Definition asyncpg_create (r : Resource) (req : Request) : M Response :=
  _ <- require req add ;;
  raw <- read_body req ;;
  data <- lift (validate_payload raw (r_create_validator r)) ;;
  row0 <- with_conn (q_insert (r_table r) (r_pk r) data) ;;
  ret (json_response (json_of_row row0) []).

Definition asyncpg_update (r : Resource) (req : Request) : M Response :=
  _ <- require req edit ;;
  raw <- read_body req ;;
  data <- lift (validate_payload raw (r_update_validator r)) ;;
  let eid := coerce_entity_id (entity_id req) in
  rec <- with_conn (
    rec <- q_select_pk (r_pk r) eid ;;
    match rec with
    | None => raise (ObjectNotFound eid)
    | Some _ => q_update_pk (r_pk r) data eid
    end) ;;
  entity <- dict_of rec ;;
  ret (json_response (json_of_row entity) []).

Definition asyncpg_delete (r : Resource) (req : Request) : M Response :=
  _ <- require req delete ;;
  let eid := coerce_entity_id (entity_id req) in
  _ <- with_conn (q_delete_pk (r_pk r) eid) ;;
  ret (json_response status_deleted []).

(** *** MySQLResource *)

Definition mysql_create (r : Resource) (req : Request) : M Response :=
  _ <- require req add ;;
  raw <- read_body req ;;
  data <- lift (validate_payload raw (r_create_validator r)) ;;
  rec <- with_conn (
    new_entity_id <- q_insert_lastrowid (r_table r) (r_pk r) data ;;
    rec <- q_select_pk (r_pk r) new_entity_id ;;
    _ <- q_commit ;;
    ret rec) ;;
  entity <- dict_of rec ;;
  ret (json_response (json_of_row entity) []).

Definition mysql_update (r : Resource) (req : Request) : M Response :=
  _ <- require req edit ;;
  let eid := entity_id req in
  raw <- read_body req ;;
  data <- lift (validate_payload raw (r_update_validator r)) ;;
  rec <- with_conn (
    rec <- q_select_pk (r_pk r) (VStr eid) ;;
    match rec with
    | None => raise (ObjectNotFound (not_found_msg eid))
    | Some _ =>
        _ <- q_update_pk (r_pk r) data (VStr eid) ;;
        _ <- q_commit ;;
        q_select_pk (r_pk r) (VStr eid)
    end) ;;
  entity <- dict_of rec ;;
  ret (json_response (json_of_row entity) []).

(** *** AsyncpgGrpcResource *)

Context `{C : GrpcClient}.

(** [try: ... except GrpcError as e: <str(e)>]: only [GrpcError] is caught. *)
Definition catch_grpc {A} (m : M A) : M (string + A) :=
  fun st =>
    match m st with
    | (inl (GrpcError msg), st') => (inr (inl msg), st')
    | (inl e, st') => (inl e, st')
    | (inr a, st') => (inr (inr a), st')
    end.

Definition rpc_update (eid : value) (data : payload) : M unit :=
  _ <- emit (ERpcUpdate eid) ;; lift (client_update eid data).

Definition rpc_create (data : payload) : M value :=
  _ <- emit ERpcCreate ;; lift (client_create data).

Definition rpc_delete (eid : value) : M unit :=
  _ <- emit (ERpcDelete eid) ;; lift (client_delete eid).

Definition grpc_update (r : Resource) (req : Request) : M Response :=
  _ <- require req edit ;;
  raw <- read_body req ;;
  data <- lift (validate_payload raw (r_update_validator r)) ;;
  let eid := coerce_entity_id (entity_id req) in
  res <- catch_grpc (rpc_update eid data) ;;
  match res with
  | inl msg => ret (json_response (status_error msg) [])
  | inr _ =>
      rec <- with_conn (q_select_pk (r_pk r) eid) ;;
      entity <- dict_of rec ;;
      ret (json_response (json_of_row entity) [])
  end.

Definition grpc_create (r : Resource) (req : Request) : M Response :=
  _ <- require req add ;;
  raw <- read_body req ;;
  data <- lift (validate_payload raw (r_create_validator r)) ;;
  res <- catch_grpc (rpc_create data) ;;
  match res with
  | inl msg => ret (json_response (status_error msg) [])
  | inr eid =>
      rec <- with_conn (q_select_pk (r_pk r) eid) ;;
      entity <- dict_of rec ;;
      ret (json_response (json_of_row entity) [])
  end.

(** The path text goes to the client as it is. *)
Definition grpc_delete (r : Resource) (req : Request) : M Response :=
  _ <- require req delete ;;
  let eid := entity_id req in
  res <- catch_grpc (rpc_delete (VStr eid)) ;;
  match res with
  | inl msg => ret (json_response (status_error msg) [])
  | inr _ => ret (json_response status_deleted [])
  end.

(** *** Dispatch, following the class hierarchy
    [PGResource <- AsyncpgResource <- AsyncpgGrpcResource] and
    [PGResource <- MySQLResource]. *)

Inductive Variant :=
| PGResource | AsyncpgResource | MySQLResource | AsyncpgGrpcResource.

Inductive Op := OpList | OpDetail | OpCreate | OpUpdate | OpDelete.

Definition handler (v : Variant) (o : Op) : Resource -> Request -> M Response :=
  match v, o with
  | PGResource, OpList => pg_list
  | PGResource, OpDetail => pg_detail
  | PGResource, OpCreate => pg_create
  | PGResource, OpUpdate => pg_update
  | PGResource, OpDelete => pg_delete
  | AsyncpgResource, OpList => asyncpg_list
  | AsyncpgResource, OpDetail => asyncpg_detail
  | AsyncpgResource, OpCreate => asyncpg_create
  | AsyncpgResource, OpUpdate => asyncpg_update
  | AsyncpgResource, OpDelete => asyncpg_delete
  | MySQLResource, OpList => pg_list
  | MySQLResource, OpDetail => pg_detail
  | MySQLResource, OpCreate => mysql_create
  | MySQLResource, OpUpdate => mysql_update
  | MySQLResource, OpDelete => pg_delete
  | AsyncpgGrpcResource, OpList => asyncpg_list
  | AsyncpgGrpcResource, OpDetail => asyncpg_detail
  | AsyncpgGrpcResource, OpCreate => grpc_create
  | AsyncpgGrpcResource, OpUpdate => grpc_update
  | AsyncpgGrpcResource, OpDelete => grpc_delete
  end.

(** The permission each operation requires. *)
Definition op_permission (o : Op) : Permissions :=
  match o with
  | OpList | OpDetail => view
  | OpCreate => add
  | OpUpdate => edit
  | OpDelete => delete
  end.

End Handlers.

(** ** Type-to-descriptor mapping *)

Definition field_type_of (t : satype) : ReactComponent :=
  type_dict_get FIELD_TYPES t TEXT_FIELD.

Definition input_type_of (t : satype) : ReactComponent :=
  type_dict_get INPUT_TYPES t TEXT_INPUT.

(** [PGResource.get_type_of_fields]: [if not fields: fields =
    table.primary_key]; ["*"] selects every column, otherwise the columns
    whose key is in [fields]. *)
Definition get_type_of_fields (fields : option FieldSel) (t : Table)
  : list (string * ReactComponent) :=
  let fields' :=
    match fields with
    | None | Some (FNames []) => FNames (table_primary_key t)
    | Some f => f
    end in
  let actual_fields :=
    match fields' with
    | FAll => t_cols t
    | FNames l => filter (fun c => in_keys (c_name c) l) (t_cols t)
    end in
  map (fun c => (c_name c, field_type_of (c_type c))) actual_fields.

(** One dict of [get_type_for_inputs]; [props] is always [None]. *)
Record InputDesc := mkInputDesc {
  in_type : ReactComponent;
  in_name : string;
  isPrimaryKey : bool;
  props : option json
}.

Definition get_type_for_inputs (t : Table) : list InputDesc :=
  map (fun c => mkInputDesc (input_type_of (c_type c)) (c_name c)
                  (in_keys (c_name c) (table_primary_key t)) None)
      (t_cols t).

(** ** The schema registry ([contrib/admin.py]) *)

(** A registered endpoint ([ModelAdmin]): its [fields], [Meta.table] and
    the dict its [to_dict()] returns. *)
Record Endpoint := mkEndpoint {
  ep_fields : option FieldSel;
  ep_table : Table;
  ep_dict : list (string * json)
}.

Record Schema := mkSchema {
  title : string;
  endpoints : list Endpoint
}.

Definition new_schema (t : string) : Schema := mkSchema t [].

(** [Schema.register]: [self.endpoints.append(Endpoint(...))]. *)
Definition register (s : Schema) (ep : Endpoint) : Schema :=
  mkSchema (title s) (endpoints s ++ [ep]).

Definition schema_of (t : string) (eps : list Endpoint) : Schema :=
  fold_left register eps (new_schema t).

(** Python's [sorted] is stable: each element goes after the ones whose
    key is not greater. *)
Fixpoint insert_by_key {A} (x : string * A) (l : list (string * A))
  : list (string * A) :=
  match l with
  | [] => [x]
  | y :: l' => if String.leb (fst y) (fst x) then y :: insert_by_key x l'
               else x :: l
  end.

Definition stable_sort {A} (l : list (string * A)) : list (string * A) :=
  fold_left (fun acc x => insert_by_key x acc) l [].

(** [key=lambda x: x['name']]: every key is computed first; a missing
    name raises KeyError.  Names are strings (compared by code point);
    another JSON value as a name is outside the model and raises here. *)
Fixpoint name_keys (ds : list (list (string * json)))
  : exn + list (string * list (string * json)) :=
  match ds with
  | [] => inr []
  | d :: ds' =>
      match assoc_get "name" d with
      | Some (JVal (VStr n)) =>
          match name_keys ds' with
          | inr ks => inr ((n, d) :: ks)
          | inl e => inl e
          end
      | Some _ => inl TypeError
      | None => inl KeyError
      end
  end.

Definition sorted_by_name (ds : list (list (string * json)))
  : exn + list (list (string * json)) :=
  match name_keys ds with
  | inr ks => inr (map snd (stable_sort ks))
  | inl e => inl e
  end.

Section ToJson.
(** [ReactComponent.value] (contrib/constants, not among the sources). *)
Variable rc_value : ReactComponent -> string.

Definition fields_json (fs : list (string * ReactComponent)) : json :=
  JObj (map (fun nf => (fst nf, JVal (VStr (rc_value (snd nf))))) fs).

(** One endpoint's descriptor: [data = endpoint.to_dict();
    data['fields'] = resource_type.get_type_of_fields(fields, table)]. *)
Definition endpoint_data (ep : Endpoint) : list (string * json) :=
  dict_set "fields" (fields_json (get_type_of_fields (ep_fields ep) (ep_table ep)))
    (ep_dict ep).

(** [Schema.to_json], the document [json.dumps] serialises. *)
Definition to_json (s : Schema) : exn + json :=
  match sorted_by_name (map endpoint_data (endpoints s)) with
  | inr sorted =>
      inr (JObj [("title", JVal (VStr (title s)));
                 ("endpoints", JArr (map JObj sorted))])
  | inl e => inl e
  end.

End ToJson.

(** ** A concrete deployment, for evaluating the handlers *)

Module Demo.

(** Every request may do everything, except one for the entity
    ["denied"]. *)
Definition permits_demo (req : Request) (_ : Permissions) : bool :=
  negb (String.eqb (entity_id req) "denied").

Definition parse_demo (raw : string) : option payload :=
  if String.eqb raw "name=Ann" then Some [("name", VStr "Ann")]
  else if String.eqb raw "id=5" then Some [("id", VInt 5)]
  else None.

Definition backend : Backend := {|
  permits := permits_demo;
  parse_payload := parse_demo;
  validate_query := fun _ _ => inr (mkQuerySpec [] []);
  calc_pagination := fun _ pk => mkPaging 0 10 pk ASC;
  create_filter := fun _ _ _ => true;
  sql_order := fun _ _ l => l;
  pk_match := value_eqb
|}.

(** The RPC service knows no entity: update and delete fail with a
    GrpcError, create hands out id 1. *)
Definition client : GrpcClient := {|
  client_update := fun _ _ => inl (GrpcError "no such entity");
  client_create := fun _ => inr (VInt 1);
  client_delete := fun _ => inl (GrpcError "no such entity")
|}.

Definition users : Table :=
  mkTable [mkColumn "id" Integer true; mkColumn "name" Text false;
           mkColumn "active" Boolean false].

(** A table whose primary key is not called [id]. *)
Definition accounts : Table :=
  mkTable [mkColumn "uid" (OtherType "BigInteger") true].

Definition resource_of (t : Table) : Resource :=
  match pg_init t None true with
  | inr r => r
  | inl _ => mkResource t "" None (mkTrafaret []) (mkTrafaret [])
  end.

Definition empty : St := mkSt [] 1 [].

Definition one_account : St := mkSt [[("uid", VInt 1)]] 2 [].

Definition req (eid raw : string) : Request := mkRequest eid raw [].

Definition users_res : Resource := resource_of users.

(** The resource built with [skip_pk=False]. *)
Definition resource_of_skip (t : Table) : Resource :=
  match pg_init t None false with
  | inr r => r
  | inl _ => mkResource t "" None (mkTrafaret []) (mkTrafaret [])
  end.

Definition accounts_res : Resource := resource_of accounts.

Definition one_user : St :=
  mkSt [[("id", VInt 1); ("name", VStr "Ann"); ("active", VNull)]] 2 [].

Definition ann : payload := [("name", VStr "Ann")].

(** Two admin pages over [users], named ["a"] and ["b"]. *)
Definition ep_a : Endpoint := mkEndpoint (Some FAll) users [("name", JVal (VStr "a"))].

Definition ep_b : Endpoint := mkEndpoint None users [("name", JVal (VStr "b"))].

Definition rc_value (_ : ReactComponent) : string := "TextField".

(** A query validator that refuses any query parameter. *)
Definition strict_query (q : list (string * string)) (_ : list string)
  : exn + QuerySpec :=
  match q with
  | [] => inr (mkQuerySpec [] [])
  | _ => inl ValidationError
  end.

Definition strict_backend : Backend := {|
  permits := permits_demo;
  parse_payload := parse_demo;
  validate_query := strict_query;
  calc_pagination := fun _ pk => mkPaging 0 10 pk ASC;
  create_filter := fun _ _ _ => true;
  sql_order := fun _ _ l => l;
  pk_match := value_eqb
|}.


(** A table with a non-key column called [id] beside the key [uid]. *)
Definition tagged : Table :=
  mkTable [mkColumn "uid" Integer true; mkColumn "id" Text false].

(** Two users, ids 1 and 2. *)
Definition two_users : St :=
  mkSt [[("id", VInt 1); ("name", VStr "Ann"); ("active", VNull)];
        [("id", VInt 2); ("name", VStr "Bob"); ("active", VBool true)]] 3 [].

(** Three users, ids 1 to 3. *)
Definition three_users : St :=
  mkSt [[("id", VInt 1); ("name", VStr "Ann"); ("active", VNull)];
        [("id", VInt 2); ("name", VStr "Bob"); ("active", VBool true)];
        [("id", VInt 3); ("name", VStr "Cy"); ("active", VBool false)]] 4 [].

(** Pagination that skips one row and returns one, in descending order;
    the engine stores rows in ascending key order. *)
Definition paged_backend : Backend := {|
  permits := permits_demo;
  parse_payload := parse_demo;
  validate_query := fun _ _ => inr (mkQuerySpec [] []);
  calc_pagination := fun _ pk => mkPaging 1 1 pk DESC;
  create_filter := fun _ _ _ => true;
  sql_order := fun _ d l => match d with ASC => l | DESC => rev l end;
  pk_match := value_eqb
|}.

(** One user called ["Al"]. *)
Definition one_al : St :=
  mkSt [[("id", VInt 1); ("name", VStr "Al"); ("active", VNull)]] 2 [].

(** One row whose key holds the text ["1"], as a MySQL driver may return it. *)
Definition text_one : St := mkSt [[("id", VStr "1")]] 2 [].

End Demo.

(** ** Notions the statements use *)

(** A computation that only appends to the effect log. *)
Definition appends {A} (m : M A) : Prop :=
  forall st, exists evs, st_log (snd (m st)) = st_log st ++ evs.

(** The parameter a SQL handler binds for the path id. *)
Definition bound_id (v : Variant) (s : string) : value :=
  match v with
  | PGResource | MySQLResource => VStr s
  | AsyncpgResource | AsyncpgGrpcResource => coerce_entity_id s
  end.

(** What the gRPC handlers make of an exception from the client. *)
Definition grpc_failure (e : exn) : exn + Response :=
  match e with
  | GrpcError m => inr (json_response (status_error m) [])
  | _ => inl e
  end.

(** No pool or statement event. *)
Definition no_db_access (evs : list event) : Prop :=
  Forall (fun ev => db_event ev = false) evs.

(** Order of keyed pairs by key. *)
Definition key_le {A} (p q : string * A) : Prop := String.leb (fst p) (fst q) = true.

(** The [name] of an endpoint descriptor, when it is a string. *)
Definition descriptor_name (d : list (string * json)) : string :=
  match assoc_get "name" d with
  | Some (JVal (VStr n)) => n
  | _ => ""
  end.

(** The events a computation appends to the log satisfy [P]. *)
Definition logs {A} (P : list event -> Prop) (m : M A) : Prop :=
  forall st, exists evs, st_log (snd (m st)) = st_log st ++ evs /\ P evs.

Definition pool_event (e : event) : bool :=
  match e with
  | EAcquire | ERelease => true
  | _ => false
  end.


(** At most one connection, released: either no database event at all, or
    one [acquire ... release] span holding every statement. *)
Definition conn_scoped (evs : list event) : Prop :=
  no_db_access evs
  \/ exists pre mid post,
       evs = pre ++ EAcquire :: mid ++ ERelease :: post
       /\ no_db_access pre /\ no_db_access post
       /\ Forall (fun ev => pool_event ev = false) mid.

(** A computation that leaves the rows and the id sequence as they are. *)
Definition keeps_store {A} (m : M A) : Prop :=
  forall st, st_rows (snd (m st)) = st_rows st /\ st_seq (snd (m st)) = st_seq st.

(** The argument of the [ObjectNotFound] a variant raises for a path id:
    the formatted message in PGResource and MySQLResource, the bound id in
    AsyncpgResource. *)
Definition not_found_arg (v : Variant) (s : string) : value :=
  match v with
  | PGResource | MySQLResource => not_found_msg s
  | AsyncpgResource | AsyncpgGrpcResource => coerce_entity_id s
  end.

(** * Properties *)

Section Proofs.
Context `{B : Backend} `{C : GrpcClient}.

(** ** Handlers only append to the effect log *)


Lemma appends_ret {A} (a : A) : appends (ret a).
Proof. intro st; exists []; now rewrite app_nil_r. Qed.

Lemma appends_raise {A} (e : exn) : appends (@raise A e).
Proof. intro st; exists []; now rewrite app_nil_r. Qed.

Lemma appends_lift {A} (r : exn + A) : appends (lift r).
Proof. intro st; exists []; now rewrite app_nil_r. Qed.

Lemma appends_emit e : appends (emit e).
Proof. intro st; now exists [e]. Qed.

Lemma appends_bind {A B'} (m : M A) (k : A -> M B') :
  appends m -> (forall a, appends (k a)) -> appends (bind m k).
Proof.
  intros Hm Hk st; unfold bind.
  destruct (Hm st) as [evs1 E1].
  destruct (m st) as [[e|a] st'] eqn:Em; simpl in *.
  - now exists evs1.
  - destruct (Hk a st') as [evs2 E2].
    exists (evs1 ++ evs2); now rewrite E2, E1, app_assoc.
Qed.

Lemma appends_with_conn {A} (m : M A) : appends m -> appends (with_conn m).
Proof.
  intros Hm st; unfold with_conn.
  destruct (Hm (log EAcquire st)) as [evs E].
  destruct (m (log EAcquire st)) as [r st'] eqn:Em; simpl in *.
  exists (EAcquire :: evs ++ [ERelease]).
  rewrite E; simpl; now rewrite <- !app_assoc.
Qed.

Lemma appends_dict_of rec : appends (dict_of rec).
Proof. destruct rec; [apply appends_ret | apply appends_raise]. Qed.

Lemma appends_catch_grpc {A} (m : M A) : appends m -> appends (catch_grpc m).
Proof.
  intros Hm st; destruct (Hm st) as [evs E]; exists evs; unfold catch_grpc.
  destruct (m st) as [[[]|a] st']; exact E.
Qed.

Lemma appends_require req p : appends (require req p).
Proof.
  unfold require; apply appends_bind; [apply appends_emit|].
  intros _; destruct (permits req p); [apply appends_ret | apply appends_raise].
Qed.

Lemma appends_read_body req : appends (read_body req).
Proof. apply appends_bind; [apply appends_emit | intros; apply appends_ret]. Qed.

Ltac log_step := intro st; eexists; simpl; reflexivity.

Lemma appends_q_select_pk pk k : appends (q_select_pk pk k).
Proof. log_step. Qed.
Lemma appends_q_update_pk pk d k : appends (q_update_pk pk d k).
Proof. log_step. Qed.
Lemma appends_q_delete_pk pk k : appends (q_delete_pk pk k).
Proof. log_step. Qed.
Lemma appends_q_insert t pk d : appends (q_insert t pk d).
Proof. log_step. Qed.
Lemma appends_q_insert_lastrowid t pk d : appends (q_insert_lastrowid t pk d).
Proof. log_step. Qed.
Lemma appends_q_count sel : appends (q_count sel).
Proof. log_step. Qed.
Lemma appends_q_fetch sel p : appends (q_fetch sel p).
Proof. log_step. Qed.

Lemma appends_q_commit : appends q_commit.
Proof. apply appends_emit. Qed.

Lemma appends_rpc_update k d : appends (rpc_update k d).
Proof. apply appends_bind; [apply appends_emit | intros; apply appends_lift]. Qed.
Lemma appends_rpc_create d : appends (rpc_create d).
Proof. apply appends_bind; [apply appends_emit | intros; apply appends_lift]. Qed.
Lemma appends_rpc_delete k : appends (rpc_delete k).
Proof. apply appends_bind; [apply appends_emit | intros; apply appends_lift]. Qed.

Create HintDb appends_db.
#[local] Hint Resolve appends_ret appends_raise appends_lift appends_emit
  appends_dict_of appends_require appends_read_body appends_q_select_pk
  appends_q_update_pk appends_q_delete_pk appends_q_insert
  appends_q_insert_lastrowid appends_q_count appends_q_fetch appends_q_commit
  appends_rpc_update appends_rpc_create appends_rpc_delete : appends_db.

Ltac appends_tac :=
  repeat (cbv beta zeta;
    match goal with
    | |- appends (bind _ _) => apply appends_bind; [ | intro ]
    | |- appends (with_conn _) => apply appends_with_conn
    | |- appends (catch_grpc _) => apply appends_catch_grpc
    | |- appends (match ?x with _ => _ end) => destruct x
    | |- appends _ => solve [eauto with appends_db]
    end).

(** Every handler is [require] followed by a computation that appends. *)
Lemma handler_starts_with_require v o :
  exists k : Resource -> Request -> unit -> M Response,
    (forall r req, handler v o r req = bind (require req (op_permission o)) (k r req))
    /\ (forall r req u, appends (k r req u)).
Proof.
  destruct v, o; eexists; split;
    try (intros r req; reflexivity); intros r req u; appends_tac.
Qed.

Lemma require_then {A} req p (k : unit -> M A) st :
  (forall u, appends (k u)) ->
  exists evs,
    st_log (snd (bind (require req p) k st)) = st_log st ++ ERequire p :: evs
    /\ (permits req p = false ->
        fst (bind (require req p) k st) = inl HTTPForbidden
        /\ evs = [] /\ st_rows (snd (bind (require req p) k st)) = st_rows st).
Proof.
  intros Hk; unfold bind, require, emit; simpl.
  destruct (permits req p) eqn:Hp; simpl.
  - destruct (Hk tt (log (ERequire p) st)) as [evs E].
    exists evs; split; [|discriminate].
    rewrite E; simpl; now rewrite <- app_assoc.
  - exists []; split; [reflexivity | auto].
Qed.


(** ** C3 *)

(** C3: every operation of every variant first performs the permission
    check [require] with the operation's permission, before any connection
    is acquired or statement run; when the check fails the handler raises
    [HTTPForbidden] and nothing else happens. *)
Theorem require_before_database v o r req st :
  exists evs,
    st_log (snd (handler v o r req st))
      = st_log st ++ ERequire (op_permission o) :: evs
    /\ (permits req (op_permission o) = false ->
        fst (handler v o r req st) = inl HTTPForbidden
        /\ evs = [] /\ st_rows (snd (handler v o r req st)) = st_rows st).
Proof.
  destruct (handler_starts_with_require v o) as [k [Hk Hka]].
  rewrite Hk; apply require_then; auto.
Qed.

(** ** C5 *)

(** C5: the SQL-backed delete handlers acknowledge with
    [{"status": "deleted"}] whether or not a row matches; the matching rows,
    if any, are removed. *)
Theorem sql_delete_acknowledged v r req st :
  v <> AsyncpgGrpcResource ->
  permits req delete = true ->
  fst (handler v OpDelete r req st) = inr (json_response status_deleted [])
  /\ st_rows (snd (handler v OpDelete r req st))
     = filter (fun row => negb (row_matches (r_pk r) (bound_id v (entity_id req)) row))
              (st_rows st).
Proof.
  intros Hv Hp.
  destruct v; try congruence;
    unfold handler, pg_delete, asyncpg_delete, require, bind, emit, with_conn,
      q_delete_pk, q_commit, ret, raise, log, bound_id; simpl;
    rewrite Hp; simpl; auto.
Qed.

Lemma find_all_false {A} (f : A -> bool) (l : list A) :
  (forall x, In x l -> f x = false) -> find f l = None.
Proof.
  induction l as [|x l IH]; simpl; intros H; auto.
  rewrite (H x (or_introl eq_refl)); apply IH; auto.
Qed.

(** ** C1 *)

(** C1 (as amended): for PGResource, AsyncpgResource and MySQLResource an
    update that passes the edit check and payload validation, and whose
    bound path id matches no row, raises [ObjectNotFound] and leaves the
    rows and the id sequence unchanged; AsyncpgGrpcResource does no
    existence check and calls the RPC client first, a [GrpcError] from it
    becoming a [{"status": {"error": ...}}] body. *)
Theorem update_missing_row v r req st data :
  permits req edit = true ->
  validate_payload (body req) (r_update_validator r) = inr data ->
  (v <> AsyncpgGrpcResource ->
   (forall row, In row (st_rows st) ->
      row_matches (r_pk r) (bound_id v (entity_id req)) row = false) ->
   exists msg,
     fst (handler v OpUpdate r req st) = inl (ObjectNotFound msg)
     /\ st_rows (snd (handler v OpUpdate r req st)) = st_rows st
     /\ st_seq (snd (handler v OpUpdate r req st)) = st_seq st)
  /\ (v = AsyncpgGrpcResource ->
      forall m, client_update (coerce_entity_id (entity_id req)) data = inl (GrpcError m) ->
      fst (handler v OpUpdate r req st) = inr (json_response (status_error m) [])
      /\ st_rows (snd (handler v OpUpdate r req st)) = st_rows st).
Proof.
  intros Hp Hval; split.
  - intros Hv Hnone.
    destruct v; try congruence;
      unfold handler, pg_update, asyncpg_update, mysql_update, require,
        read_body, bind, emit, lift, with_conn, q_select_pk, raise, ret, log,
        bound_id in *; simpl in *;
      rewrite Hp; simpl; rewrite Hval; simpl;
      rewrite (find_all_false _ _ Hnone); eexists; simpl; auto.
  - intros Hv m Hc; subst v.
    unfold handler, grpc_update, require, read_body, catch_grpc, rpc_update,
      bind, emit, lift, ret, log; simpl.
    rewrite Hp; simpl; rewrite Hval; simpl; rewrite Hc; simpl; auto.
Qed.

(** ** C2 *)



(** C2: when the RPC client of AsyncpgGrpcResource raises on create,
    update or delete, a [GrpcError m] becomes the body
    [{"status": {"error": m}}], any other exception propagates, and no
    connection or statement follows the failed call (for update no local
    query at all). *)
Theorem grpc_failure_json_body r req st data e :
  (permits req add = true ->
   validate_payload (body req) (r_create_validator r) = inr data ->
   client_create data = inl e ->
   fst (handler AsyncpgGrpcResource OpCreate r req st) = grpc_failure e
   /\ st_rows (snd (handler AsyncpgGrpcResource OpCreate r req st)) = st_rows st
   /\ exists evs,
        st_log (snd (handler AsyncpgGrpcResource OpCreate r req st)) = st_log st ++ evs
        /\ no_db_access evs)
  /\ (permits req edit = true ->
      validate_payload (body req) (r_update_validator r) = inr data ->
      client_update (coerce_entity_id (entity_id req)) data = inl e ->
      fst (handler AsyncpgGrpcResource OpUpdate r req st) = grpc_failure e
      /\ st_rows (snd (handler AsyncpgGrpcResource OpUpdate r req st)) = st_rows st
      /\ exists evs,
           st_log (snd (handler AsyncpgGrpcResource OpUpdate r req st)) = st_log st ++ evs
           /\ no_db_access evs)
  /\ (permits req delete = true ->
      client_delete (VStr (entity_id req)) = inl e ->
      fst (handler AsyncpgGrpcResource OpDelete r req st) = grpc_failure e
      /\ st_rows (snd (handler AsyncpgGrpcResource OpDelete r req st)) = st_rows st
      /\ exists evs,
           st_log (snd (handler AsyncpgGrpcResource OpDelete r req st)) = st_log st ++ evs
           /\ no_db_access evs).
Proof.
  unfold handler, grpc_create, grpc_update, grpc_delete, require, read_body,
    catch_grpc, rpc_create, rpc_update, rpc_delete, bind, emit, lift, ret, log.
  split; [|split];
    [ intros Hp Hval Hc | intros Hp Hval Hc | intros Hp Hc ];
    simpl; rewrite Hp; simpl; try (rewrite Hval; simpl); rewrite Hc;
    destruct e; simpl; (split; [reflexivity | split; [reflexivity|]]);
    (eexists; split; [rewrite <- !app_assoc; reflexivity | repeat constructor]).
Qed.

(** ** Path-id conversion *)

(** AsyncpgResource's detail, update and delete, and AsyncpgGrpcResource's
    detail and update, bind [int(entity_id)] when the path text parses as an
    integer and the text itself otherwise, without raising;
    AsyncpgGrpcResource.delete hands the path text to the RPC client
    unconverted. *)
Theorem entity_id_coercion r req st data :
  (permits req view = true ->
      forall v, v = AsyncpgResource \/ v = AsyncpgGrpcResource ->
      st_log (snd (handler v OpDetail r req st))
        = st_log st ++ [ERequire view; EAcquire;
                        ESelect (coerce_entity_id (entity_id req)); ERelease])
  /\ (permits req delete = true ->
      st_log (snd (handler AsyncpgResource OpDelete r req st))
        = st_log st ++ [ERequire delete; EAcquire;
                        EDelete (coerce_entity_id (entity_id req)); ERelease])
  /\ (permits req edit = true ->
      validate_payload (body req) (r_update_validator r) = inr data ->
      (exists evs,
         st_log (snd (handler AsyncpgResource OpUpdate r req st))
           = st_log st ++ [ERequire edit; EReadBody; EAcquire;
                           ESelect (coerce_entity_id (entity_id req))] ++ evs)
      /\ (exists evs,
            st_log (snd (handler AsyncpgGrpcResource OpUpdate r req st))
              = st_log st ++ [ERequire edit; EReadBody;
                              ERpcUpdate (coerce_entity_id (entity_id req))] ++ evs))
  /\ (permits req delete = true ->
      st_log (snd (handler AsyncpgGrpcResource OpDelete r req st))
        = st_log st ++ [ERequire delete; ERpcDelete (VStr (entity_id req))]).
Proof.
  unfold handler, asyncpg_detail, asyncpg_delete, asyncpg_update, grpc_update,
    grpc_delete, require, read_body, catch_grpc, rpc_update, rpc_delete,
    dict_of, bind, emit, lift, with_conn, q_select_pk, q_delete_pk,
    q_update_pk, raise, ret, log.
  split; [intros Hp v [-> | ->]; simpl; rewrite Hp; simpl;
          destruct (find _ _); simpl; rewrite <- !app_assoc; reflexivity|].
  split; [intros Hp; simpl; rewrite Hp; simpl; rewrite <- !app_assoc; reflexivity|].
  split; [intros Hp Hval; simpl; rewrite Hp; simpl; rewrite Hval; simpl; split|].
  - repeat (destruct (find _ _); simpl); eexists; rewrite <- !app_assoc; reflexivity.
  - destruct (client_update _ _) as [[]|]; simpl;
      repeat (destruct (find _ _); simpl);
      eexists; rewrite <- !app_assoc; simpl; reflexivity.
  - intros Hp; simpl; rewrite Hp; simpl.
    destruct (client_delete _) as [[]|]; simpl; rewrite <- !app_assoc; reflexivity.
Qed.

(** ** C4 *)

(** C4 (as amended): a list request that passes the view check and query
    validation is answered with [X-Total-Count] equal to the number of rows
    the filter selects (all rows when there is none), whatever the offset
    and limit; the body is that selection ordered, offset and limited.
    PGResource (and MySQLResource) return those rows as they are;
    AsyncpgResource (and AsyncpgGrpcResource) return each as
    [{"id": row[pk], **row}]. *)
Theorem list_total_count v r req st q :
  permits req view = true ->
  validate_query (query req) (map c_name (t_cols (r_table r))) = inr q ->
  let sel := filter (list_selection (r_table r) (q_filters q)) (st_rows st) in
  let p := calc_pagination q (r_pk r) in
  let page := firstn (limit p) (skipn (offset p)
                (sql_order (sort_field p) (sort_dir p) sel)) in
  let headers := [("X-Total-Count", str_Z (Z.of_nat (List.length sel)))] in
  fst (handler v OpList r req st)
    = match v with
      | PGResource | MySQLResource =>
          inr (json_response (JArr (map json_of_row page)) headers)
      | AsyncpgResource | AsyncpgGrpcResource =>
          match map_with_id (r_pk r) page with
          | inr entities =>
              inr (json_response (JArr (map json_of_row entities)) headers)
          | inl e => inl e
          end
      end
  /\ st_rows (snd (handler v OpList r req st)) = st_rows st.
Proof.
  intros Hp Hq; cbv zeta.
  destruct v;
    unfold handler, pg_list, asyncpg_list, require, bind, emit, lift,
      with_conn, q_count, q_fetch, ret, log; simpl;
    rewrite Hp; simpl; rewrite Hq; simpl;
    try (destruct (map_with_id _ _); simpl); auto.
Qed.

(** ** C7 *)

Lemma assoc_get_in {A} k (l : list (string * A)) v :
  assoc_get k l = Some v -> In k (map fst l).
Proof.
  induction l as [|[k' v'] l IH]; simpl; [discriminate|].
  destruct (String.eqb_spec k k'); [subst; auto | intros H; right; auto].
Qed.

Lemma validate_skip_pk_excludes t pk raw data :
  validate_payload raw (table_to_trafaret t pk true) = inr data ->
  assoc_get pk data = None.
Proof.
  unfold validate_payload.
  destruct (parse_payload raw) as [d|]; [|discriminate].
  destruct (forallb _ d) eqn:F; [|discriminate].
  intros H; injection H as <-.
  destruct (assoc_get pk d) as [v|] eqn:G; [exfalso|reflexivity].
  apply assoc_get_in, in_map_iff in G as [[k v'] [Hk Hin]]; simpl in Hk; subst k.
  rewrite forallb_forall in F; specialize (F _ Hin); simpl in F.
  unfold in_keys in F; apply existsb_exists in F as [x [Hx Ex]].
  apply String.eqb_eq in Ex; subst x.
  apply filter_In in Hx as [_ Hx]; rewrite String.eqb_refl in Hx; discriminate.
Qed.

Lemma build_row_pk t pk data seq c :
  In c (t_cols t) -> c_name c = pk -> assoc_get pk data = None ->
  assoc_get pk (build_row t pk data seq) = Some (VInt seq).
Proof.
  destruct t as [cols]; unfold build_row; simpl.
  intros Hin Hc Hd; induction cols as [|c' cols IH]; [destruct Hin|]; simpl.
  destruct (String.eqb_spec pk (c_name c')) as [E|E].
  - rewrite <- E, Hd, String.eqb_refl; reflexivity.
  - destruct Hin as [<-|Hin]; [congruence | auto].
Qed.

Lemma find_app_skip {A} (f : A -> bool) l1 l2 :
  (forall x, In x l1 -> f x = false) -> find f (l1 ++ l2) = find f l2.
Proof.
  induction l1 as [|x l1 IH]; simpl; intros H; auto.
  rewrite (H x (or_introl eq_refl)); apply IH; auto.
Qed.

(** C7: with the default [skip_pk], a payload the create validator accepts
    carries no primary key, and PGResource, AsyncpgResource and
    MySQLResource answer a valid create with the inserted row, whose
    primary key is the one the database generated.  For MySQLResource's
    re-select by [lastrowid], the generated id is assumed fresh and the
    database's comparison reflexive on it. *)
Theorem create_returns_inserted_row v t fields r req st data :
  pg_init t fields true = inr r ->
  permits req add = true ->
  validate_payload (body req) (r_create_validator r) = inr data ->
  v <> AsyncpgGrpcResource ->
  (v = MySQLResource ->
   pk_match (VInt (st_seq st)) (VInt (st_seq st)) = true
   /\ forall row, In row (st_rows st) ->
        row_matches (r_pk r) (VInt (st_seq st)) row = false) ->
  let inserted := build_row t (r_pk r) data (st_seq st) in
  assoc_get (r_pk r) data = None
  /\ assoc_get (r_pk r) inserted = Some (VInt (st_seq st))
  /\ fst (handler v OpCreate r req st) = inr (json_response (json_of_row inserted) [])
  /\ st_rows (snd (handler v OpCreate r req st)) = st_rows st ++ [inserted].
Proof.
  intros Hinit Hp Hval Hv Hmy; cbv zeta.
  unfold pg_init in Hinit.
  destruct (filter c_pk (t_cols t)) as [|c cs] eqn:F; [discriminate|].
  injection Hinit as <-; cbn [r_create_validator r_table r_pk] in *.
  assert (Hc : In c (t_cols t)).
  { assert (In c (filter c_pk (t_cols t))) by (rewrite F; left; auto).
    apply filter_In in H; tauto. }
  pose proof (validate_skip_pk_excludes _ _ _ _ Hval) as Hnopk.
  pose proof (build_row_pk t (c_name c) data (st_seq st) c Hc eq_refl Hnopk) as Hrow.
  split; [exact Hnopk|]; split; [exact Hrow|].
  destruct v; try congruence;
    unfold handler, pg_create, asyncpg_create, mysql_create, require,
      read_body, bind, emit, lift, with_conn, q_insert, q_insert_lastrowid,
      q_select_pk, q_commit, dict_of, raise, ret, log; simpl;
    rewrite Hp; simpl; rewrite Hval; simpl; auto.
  destruct (Hmy eq_refl) as [Hrefl Hfresh].
  unfold generates_pk; rewrite Hnopk; simpl.
  rewrite find_app_skip by exact Hfresh; simpl.
  assert (Hm : row_matches (c_name c) (VInt (st_seq st))
                 (build_row t (c_name c) data (st_seq st)) = true)
    by (unfold row_matches; rewrite Hrow; exact Hrefl).
  rewrite Hm; auto.
Qed.

(** ** C8 *)

Lemma satype_eqb_eq a b : satype_eqb a b = true -> a = b.
Proof.
  destruct a, b; simpl; try discriminate; auto.
  intros H; apply String.eqb_eq in H; now subst.
Qed.

Lemma type_dict_get_default d ty default :
  ~ In ty (map fst d) -> type_dict_get d ty default = default.
Proof.
  induction d as [|[ty' v] d IH]; simpl; auto.
  intros Hn; destruct (satype_eqb ty ty') eqn:E.
  - apply satype_eqb_eq in E; subst; tauto.
  - apply IH; tauto.
Qed.

Lemma NoDup_map_same {A Bt} (f : A -> Bt) l x y :
  NoDup (map f l) -> In x l -> In y l -> f x = f y -> x = y.
Proof.
  induction l as [|z l IH]; simpl; [tauto|].
  intros Hnd Hx Hy E; inversion Hnd as [|? ? Hz Hnd']; subst.
  destruct Hx as [<-|Hx], Hy as [<-|Hy]; auto.
  - exfalso; apply Hz; rewrite E; now apply in_map.
  - exfalso; apply Hz; rewrite <- E; now apply in_map.
Qed.

Lemma type_of_fields_entry fields t n rc :
  In (n, rc) (get_type_of_fields fields t) ->
  exists c, In c (t_cols t) /\ c_name c = n /\ rc = field_type_of (c_type c).
Proof.
  unfold get_type_of_fields; intros H.
  apply in_map_iff in H as [c [E Hc]]; injection E as <- <-.
  exists c; split; [|auto].
  destruct fields as [[|l]|]; try destruct l; auto;
    apply filter_In in Hc; tauto.
Qed.

(** C8: a column type with no entry in FIELD_TYPES (INPUT_TYPES) is shown
    as TEXT_FIELD (edited with TEXT_INPUT); and the input descriptor of each
    column has [isPrimaryKey] true exactly when the column is part of the
    table's primary key (column keys being unique, as in [table.c]). *)
Theorem type_descriptors t :
  NoDup (map c_name (t_cols t)) ->
  (forall fields c rc,
     In c (t_cols t) -> ~ In (c_type c) (map fst FIELD_TYPES) ->
     In (c_name c, rc) (get_type_of_fields fields t) -> rc = TEXT_FIELD)
  /\ (forall i c,
       nth_error (t_cols t) i = Some c ->
       exists d, nth_error (get_type_for_inputs t) i = Some d
         /\ in_name d = c_name c
         /\ (~ In (c_type c) (map fst INPUT_TYPES) -> in_type d = TEXT_INPUT)
         /\ (isPrimaryKey d = true <-> c_pk c = true)).
Proof.
  intros Hnd; split.
  - intros fields c rc Hc Hty Hin.
    apply type_of_fields_entry in Hin as [c' [Hc' [En Er]]].
    rewrite (NoDup_map_same c_name _ c' c Hnd Hc' Hc En) in Er.
    subst rc; apply type_dict_get_default; exact Hty.
  - intros i c Hi; unfold get_type_for_inputs; rewrite nth_error_map, Hi.
    eexists; split; [reflexivity|]; cbn [in_name in_type isPrimaryKey].
    pose proof (nth_error_In _ _ Hi) as Hc.
    split; [reflexivity|]; split; [apply type_dict_get_default|].
    unfold in_keys, table_primary_key; rewrite existsb_exists; split.
    + intros [n [Hn E]]; apply String.eqb_eq in E; subst n.
      apply in_map_iff in Hn as [c' [En Hc']]; apply filter_In in Hc' as [Hc' Hpk].
      now rewrite <- (NoDup_map_same c_name _ c' c Hnd Hc' Hc En).
    + intros Hpk; exists (c_name c); split; [|apply String.eqb_refl].
      apply in_map, filter_In; auto.
Qed.

(** ** C10 *)

(** C10: the create and the update validator of a resource are built by
    the same call, so they are the same trafaret and accept the same
    payloads, for every table and every [skip_pk]. *)
Theorem validators_identical t fields skip_pk r :
  pg_init t fields skip_pk = inr r ->
  r_create_validator r = r_update_validator r
  /\ forall raw, validate_payload raw (r_create_validator r)
                 = validate_payload raw (r_update_validator r).
Proof.
  unfold pg_init; destruct (filter c_pk (t_cols t)); [discriminate|].
  intros H; injection H as <-; simpl; auto.
Qed.

End Proofs.

(** ** C9 *)

Section Registry.

Lemma string_compare_lt_trans a b c :
  String.compare a b = Lt -> String.compare b c = Lt -> String.compare a c = Lt.
Proof.
  revert b c; induction a as [|x a IH]; intros [|y b] [|z c]; simpl;
    try discriminate; auto.
  destruct (Ascii.compare x y) eqn:E1; try discriminate;
    destruct (Ascii.compare y z) eqn:E2; try discriminate; intros H1 H2.
  - apply Ascii.compare_eq_iff in E1, E2; subst.
    unfold Ascii.compare; rewrite N.compare_refl; eauto.
  - apply Ascii.compare_eq_iff in E1; subst; now rewrite E2.
  - apply Ascii.compare_eq_iff in E2; subst; now rewrite E1.
  - unfold Ascii.compare in *; rewrite N.compare_lt_iff in *.
    replace (N.compare _ _) with Lt; [reflexivity|].
    symmetry; apply N.compare_lt_iff; lia.
Qed.

Lemma string_compare_refl a : String.compare a a = Eq.
Proof.
  induction a as [|x a IH]; simpl; auto.
  unfold Ascii.compare; now rewrite N.compare_refl.
Qed.

Lemma string_leb_trans a b c :
  String.leb a b = true -> String.leb b c = true -> String.leb a c = true.
Proof.
  unfold String.leb.
  destruct (String.compare a b) eqn:E1; try discriminate;
    destruct (String.compare b c) eqn:E2; try discriminate; intros _ _.
  - apply String.compare_eq_iff in E1, E2; subst; now rewrite string_compare_refl.
  - apply String.compare_eq_iff in E1; subst; now rewrite E2.
  - apply String.compare_eq_iff in E2; subst; now rewrite E1.
  - now rewrite (string_compare_lt_trans _ _ _ E1 E2).
Qed.

Context {A : Type}.

Lemma key_le_trans : Transitive (@key_le A).
Proof. intros p q w; unfold key_le; apply string_leb_trans. Qed.

Lemma insert_by_key_perm x (l : list (string * A)) :
  Permutation (insert_by_key x l) (x :: l).
Proof.
  induction l as [|y l IH]; simpl; auto.
  destruct (String.leb (fst y) (fst x)); auto.
  rewrite IH; apply perm_swap.
Qed.

Lemma insert_by_key_hd x y (l : list (string * A)) :
  key_le y x -> HdRel key_le y l -> HdRel key_le y (insert_by_key x l).
Proof.
  destruct l as [|z l]; simpl; intros Hyx Hd; [constructor; auto|].
  destruct (String.leb (fst z) (fst x)); constructor; auto.
  inversion Hd; auto.
Qed.

Lemma insert_by_key_sorted x (l : list (string * A)) :
  Sorted key_le l -> Sorted key_le (insert_by_key x l).
Proof.
  induction l as [|y l IH]; simpl; intros Hs; [repeat constructor|].
  inversion Hs as [|? ? Hs' Hd]; subst.
  destruct (String.leb (fst y) (fst x)) eqn:E.
  - constructor; [auto | apply insert_by_key_hd; auto].
  - constructor; [exact Hs | constructor].
    destruct (String.leb_total (fst x) (fst y)) as [H|H]; [exact H|congruence].
Qed.

Lemma stable_sort_props (l acc : list (string * A)) :
  Sorted key_le acc ->
  Sorted key_le (fold_left (fun acc x => insert_by_key x acc) l acc)
  /\ Permutation (fold_left (fun acc x => insert_by_key x acc) l acc) (l ++ acc).
Proof.
  revert acc; induction l as [|x l IH]; simpl; intros acc Hs; [auto|].
  destruct (IH (insert_by_key x acc) (insert_by_key_sorted x acc Hs)) as [H1 H2].
  split; [exact H1|].
  rewrite H2, insert_by_key_perm; symmetry; apply Permutation_middle.
Qed.

Lemma stable_sort_sorted (l : list (string * A)) : Sorted key_le (stable_sort l).
Proof. apply stable_sort_props; constructor. Qed.

Lemma stable_sort_perm (l : list (string * A)) : Permutation (stable_sort l) l.
Proof.
  unfold stable_sort; rewrite <- (app_nil_r l) at 2; apply stable_sort_props.
  constructor.
Qed.

(** Two key-sorted lists with distinct keys and the same elements are
    equal. *)
Lemma sorted_distinct_unique (l1 l2 : list (string * A)) :
  StronglySorted key_le l1 -> StronglySorted key_le l2 ->
  Permutation l1 l2 -> NoDup (map fst l1) -> l1 = l2.
Proof.
  revert l2; induction l1 as [|x l1 IH]; intros l2 S1 S2 P Hnd.
  - now rewrite (Permutation_nil P).
  - destruct l2 as [|y l2].
    + now apply Permutation_sym, Permutation_nil in P.
    + apply StronglySorted_inv in S1 as [S1 F1].
      apply StronglySorted_inv in S2 as [S2 F2].
      inversion Hnd as [|? ? Hx Hnd']; subst.
      assert (Exy : x = y).
      { destruct (Permutation_in x P (or_introl eq_refl)) as [<-|Hx2]; [auto|].
        destruct (Permutation_in y (Permutation_sym P) (or_introl eq_refl))
          as [->|Hy1]; [auto|].
        pose proof (proj1 (Forall_forall _ _) F2 x Hx2) as Lyx.
        pose proof (proj1 (Forall_forall _ _) F1 y Hy1) as Lxy.
        unfold key_le in *.
        pose proof (String.leb_antisym _ _ Lxy Lyx) as Ek.
        exfalso; apply Hx; rewrite Ek; now apply in_map. }
      subst y; f_equal; apply IH; auto.
      now apply Permutation_cons_inv in P.
Qed.

End Registry.

Lemma schema_of_fold t eps :
  title (schema_of t eps) = t /\ endpoints (schema_of t eps) = eps.
Proof.
  unfold schema_of.
  assert (G : forall s, fold_left register eps s = mkSchema (title s) (endpoints s ++ eps)).
  { induction eps as [|ep eps IH]; intros [tt es]; simpl.
    - now rewrite app_nil_r.
    - rewrite IH; simpl; now rewrite <- app_assoc. }
  rewrite G; simpl; auto.
Qed.

Lemma name_keys_named ds :
  (forall d, In d ds -> exists n, assoc_get "name" d = Some (JVal (VStr n))) ->
  name_keys ds = inr (map (fun d => (descriptor_name d, d)) ds).
Proof.
  induction ds as [|d ds IH]; simpl; intros H; auto.
  destruct (H d (or_introl eq_refl)) as [n E].
  rewrite E, IH by auto; unfold descriptor_name; now rewrite E.
Qed.

Lemma sorted_map_snd (l : list (string * list (string * json))) :
  (forall p, In p l -> fst p = descriptor_name (snd p)) ->
  Sorted key_le l ->
  Sorted (fun d1 d2 => String.leb (descriptor_name d1) (descriptor_name d2) = true)
    (map snd l).
Proof.
  induction l as [|p l IH]; simpl; intros Hk Hs; [constructor|].
  inversion Hs as [|? ? Hs' Hd]; subst.
  constructor; [apply IH; auto|].
  destruct l as [|q l]; simpl; constructor.
  inversion Hd as [|? ? Hpq]; subst; unfold key_le in Hpq.
  rewrite <- (Hk p), <- (Hk q); simpl; auto.
Qed.

(** C9: [to_json] yields the schema's title and the endpoint descriptors
    sorted by their [name]; when the names are distinct, the order of
    registration does not change the document. *)
Theorem to_json_sorted_by_name rc_value ttl eps :
  (forall ep, In ep eps ->
     exists n, assoc_get "name" (endpoint_data rc_value ep) = Some (JVal (VStr n))) ->
  (exists sorted,
     to_json rc_value (schema_of ttl eps)
       = inr (JObj [("title", JVal (VStr ttl)); ("endpoints", JArr (map JObj sorted))])
     /\ Permutation sorted (map (endpoint_data rc_value) eps)
     /\ Sorted (fun d1 d2 => String.leb (descriptor_name d1) (descriptor_name d2) = true)
          sorted)
  /\ (forall eps', Permutation eps eps' ->
      NoDup (map (fun ep => descriptor_name (endpoint_data rc_value ep)) eps) ->
      to_json rc_value (schema_of ttl eps') = to_json rc_value (schema_of ttl eps)).
Proof.
  intros Hn.
  assert (Hds : forall eps0, (forall ep, In ep eps0 -> exists n,
             assoc_get "name" (endpoint_data rc_value ep) = Some (JVal (VStr n))) ->
           to_json rc_value (schema_of ttl eps0)
           = inr (JObj [("title", JVal (VStr ttl));
                        ("endpoints", JArr (map JObj (map snd (stable_sort
                           (map (fun d => (descriptor_name d, d))
                              (map (endpoint_data rc_value) eps0))))))])).
  { intros eps0 Hn0; unfold to_json, sorted_by_name.
    destruct (schema_of_fold ttl eps0) as [-> ->].
    rewrite name_keys_named; [reflexivity|].
    intros d Hd; apply in_map_iff in Hd as [ep [<- Hep]]; auto. }
  split.
  - eexists; split; [apply Hds, Hn|]; split.
    + rewrite stable_sort_perm, map_map; simpl; now rewrite map_id.
    + apply sorted_map_snd; [|apply stable_sort_sorted].
      intros p Hp; apply (Permutation_in _ (stable_sort_perm _)), in_map_iff in Hp
        as [d [<- _]]; reflexivity.
  - intros eps' P Hnd.
    rewrite (Hds eps), (Hds eps'); auto.
    2: { intros ep Hep; apply Hn; now apply (Permutation_in _ (Permutation_sym P)). }
    replace (stable_sort (map (fun d => (descriptor_name d, d))
                            (map (endpoint_data rc_value) eps')))
      with (stable_sort (map (fun d => (descriptor_name d, d))
                            (map (endpoint_data rc_value) eps))); [reflexivity|].
    apply sorted_distinct_unique.
    + apply Sorted_StronglySorted; [apply key_le_trans | apply stable_sort_sorted].
    + apply Sorted_StronglySorted; [apply key_le_trans | apply stable_sort_sorted].
    + rewrite !stable_sort_perm; apply Permutation_map, Permutation_map, P.
    + apply (Permutation_NoDup (l := map fst (map (fun d => (descriptor_name d, d))
                                   (map (endpoint_data rc_value) eps)))).
      * apply Permutation_map; symmetry; apply stable_sort_perm.
      * now rewrite !map_map.
Qed.

(** * Concrete instances *)

Module Witnesses.
Import Demo.
#[local] Existing Instance Demo.backend.
#[local] Existing Instance Demo.client.

Lemma update_missing_row_witness :
  permits (req "7" "name=Ann") edit = true
  /\ validate_payload (body (req "7" "name=Ann")) (r_update_validator users_res) = inr ann
  /\ (forall row, In row (st_rows two_users) ->
        row_matches (r_pk users_res) (bound_id AsyncpgResource "7") row = false)
  /\ fst (handler AsyncpgResource OpUpdate users_res (req "7" "name=Ann") two_users)
     = inl (ObjectNotFound (VInt 7))
  /\ st_rows (snd (handler AsyncpgResource OpUpdate users_res (req "7" "name=Ann") two_users))
     = st_rows two_users
  /\ fst (handler AsyncpgGrpcResource OpUpdate users_res (req "7" "name=Ann") two_users)
     = inr (json_response (status_error "no such entity") []).
Proof.
  assert (Hnone : forall row, In row (st_rows two_users) ->
            row_matches (r_pk users_res) (bound_id AsyncpgResource "7") row = false)
    by (intros row [<-|[<-|[]]]; reflexivity).
  split; [reflexivity|]; split; [reflexivity|]; split; [exact Hnone|].
  destruct (@update_missing_row Demo.backend Demo.client AsyncpgResource users_res
              (req "7" "name=Ann") two_users ann eq_refl eq_refl) as [H1 _].
  destruct (H1 ltac:(discriminate) Hnone) as [msg [Hm [Hr _]]].
  destruct (@update_missing_row Demo.backend Demo.client AsyncpgGrpcResource users_res
              (req "7" "name=Ann") two_users ann eq_refl eq_refl) as [_ H2].
  split; [rewrite Hm; vm_compute in Hm; injection Hm as Em; rewrite <- Em; reflexivity|].
  split; [exact Hr|].
  exact (proj1 (H2 eq_refl "no such entity" eq_refl)).
Defined.

(** The claim's gRPC case: no row has id 7, yet the answer is a JSON body. *)
Lemma update_missing_grpc_counterexample :
  (forall row, In row (st_rows empty) -> False)
  /\ fst (handler AsyncpgGrpcResource OpUpdate users_res (req "7" "name=Ann") empty)
     = inr (json_response (status_error "no such entity") [])
  /\ ~ exists msg,
       fst (handler AsyncpgGrpcResource OpUpdate users_res (req "7" "name=Ann") empty)
         = inl (ObjectNotFound msg).
Proof.
  split; [intros row []|]; split; [vm_compute; reflexivity|].
  intros [msg H]; vm_compute in H; discriminate.
Qed.

Lemma grpc_failure_json_body_witness :
  permits (req "7" "name=Ann") edit = true
  /\ validate_payload (body (req "7" "name=Ann")) (r_update_validator users_res) = inr ann
  /\ client_update (coerce_entity_id (entity_id (req "7" "name=Ann"))) ann
     = inl (GrpcError "no such entity")
  /\ fst (handler AsyncpgGrpcResource OpUpdate users_res (req "7" "name=Ann") empty)
     = grpc_failure (GrpcError "no such entity")
  /\ st_rows (snd (handler AsyncpgGrpcResource OpUpdate users_res (req "7" "name=Ann") empty))
     = st_rows empty
  /\ exists evs,
       st_log (snd (handler AsyncpgGrpcResource OpUpdate users_res (req "7" "name=Ann") empty))
         = st_log empty ++ evs
       /\ no_db_access evs.
Proof.
  split; [reflexivity|]; split; [reflexivity|]; split; [reflexivity|].
  apply (proj1 (proj2 (@grpc_failure_json_body Demo.backend Demo.client users_res (req "7" "name=Ann") empty ann
                         (GrpcError "no such entity"))));
    reflexivity.
Defined.

Lemma require_before_database_witness :
  permits (req "denied" "") delete = false
  /\ fst (handler PGResource OpDelete users_res (req "denied" "") one_user)
     = inl HTTPForbidden
  /\ st_log (snd (handler PGResource OpDelete users_res (req "denied" "") one_user))
     = [ERequire delete].
Proof.
  destruct (@require_before_database Demo.backend Demo.client PGResource OpDelete users_res (req "denied" "") one_user)
    as [evs [E H]].
  destruct (H eq_refl) as [H1 [H2 _]].
  split; [reflexivity|]; split; [exact H1|].
  rewrite E, H2; reflexivity.
Defined.

(** Three rows, offset 1, limit 1: the page holds one row, the count
    says 3. *)
Lemma list_total_count_witness :
  @permits paged_backend (req "" "") view = true
  /\ @validate_query paged_backend (query (req "" "")) (map c_name (t_cols (r_table users_res)))
     = inr (mkQuerySpec [] [])
  /\ fst (@handler paged_backend Demo.client PGResource OpList users_res (req "" "") three_users)
     = inr (json_response
              (JArr [json_of_row [("id", VInt 2); ("name", VStr "Bob"); ("active", VBool true)]])
              [("X-Total-Count", "3")]).
Proof.
  split; [reflexivity|]; split; [reflexivity|].
  destruct (@list_total_count paged_backend Demo.client PGResource users_res (req "" "")
              three_users (mkQuerySpec [] []) eq_refl eq_refl) as [H _].
  rewrite H; vm_compute; reflexivity.
Defined.

(** The claim's row set for AsyncpgResource: the page holds the row
    [{"uid": 1}], the body holds [{"id": 1, "uid": 1}]. *)
Lemma asyncpg_list_adds_id :
  fst (handler AsyncpgResource OpList accounts_res (req "" "") one_account)
    = inr (json_response
             (JArr [JObj [("id", JVal (VInt 1)); ("uid", JVal (VInt 1))]])
             [("X-Total-Count", "1")])
  /\ fst (handler AsyncpgResource OpList accounts_res (req "" "") one_account)
     <> inr (json_response (JArr (map json_of_row [[("uid", VInt 1)]]))
               [("X-Total-Count", "1")]).
Proof.
  split; [vm_compute; reflexivity|].
  vm_compute; intros H; discriminate.
Qed.

Lemma sql_delete_acknowledged_witness :
  AsyncpgResource <> AsyncpgGrpcResource
  /\ permits (req "9" "") delete = true
  /\ fst (handler AsyncpgResource OpDelete users_res (req "9" "") one_user)
     = inr (json_response status_deleted [])
  /\ st_rows (snd (handler AsyncpgResource OpDelete users_res (req "9" "") one_user))
     = st_rows one_user.
Proof.
  split; [discriminate|]; split; [reflexivity|].
  destruct (@sql_delete_acknowledged Demo.backend Demo.client AsyncpgResource users_res (req "9" "") one_user
              ltac:(discriminate) eq_refl) as [H1 H2].
  split; [exact H1|]; rewrite H2; vm_compute; reflexivity.
Defined.

(** C6 (code bug): the path id ["12"] converts to 12 with [int()];
    AsyncpgResource.delete deletes by the integer 12 and
    AsyncpgGrpcResource.update hands 12 to the RPC client, but
    AsyncpgGrpcResource.delete hands the client the text ["12"]. *)
Theorem grpc_delete_skips_coercion :
  py_int "12" = Some 12%Z
  /\ st_log (snd (handler AsyncpgResource OpDelete users_res (req "12" "") one_user))
     = [ERequire delete; EAcquire; EDelete (VInt 12); ERelease]
  /\ st_log (snd (handler AsyncpgGrpcResource OpUpdate users_res (req "12" "name=Ann")
                     one_user))
     = [ERequire edit; EReadBody; ERpcUpdate (VInt 12)]
  /\ st_log (snd (handler AsyncpgGrpcResource OpDelete users_res (req "12" "") one_user))
     = [ERequire delete; ERpcDelete (VStr "12")].
Proof. vm_compute; repeat split. Qed.

Lemma create_returns_inserted_row_witness :
  pg_init users None true = inr users_res
  /\ permits (req "" "name=Ann") add = true
  /\ validate_payload (body (req "" "name=Ann")) (r_create_validator users_res) = inr ann
  /\ fst (handler MySQLResource OpCreate users_res (req "" "name=Ann") empty)
     = inr (json_response
              (json_of_row [("id", VInt 1); ("name", VStr "Ann"); ("active", VNull)]) []).
Proof.
  split; [reflexivity|]; split; [reflexivity|]; split; [reflexivity|].
  destruct (@create_returns_inserted_row Demo.backend Demo.client MySQLResource users None users_res
              (req "" "name=Ann") empty ann eq_refl eq_refl eq_refl
              ltac:(discriminate)
              (fun _ => conj eq_refl (fun row (H : In row []) => match H with end)))
    as [_ [_ [H _]]].
  exact H.
Defined.

Lemma type_descriptors_witness :
  NoDup (map c_name (t_cols accounts))
  /\ exists d, nth_error (get_type_for_inputs accounts) 0 = Some d
       /\ in_type d = TEXT_INPUT /\ isPrimaryKey d = true.
Proof.
  assert (Hnd : NoDup (map c_name (t_cols accounts))) by (repeat constructor; simpl; tauto).
  split; [exact Hnd|].
  destruct (proj2 (type_descriptors accounts Hnd) 0 _ eq_refl) as [d [H1 [_ [H3 H4]]]].
  exists d; split; [exact H1|]; split.
  - apply H3; simpl; intuition discriminate.
  - apply H4; reflexivity.
Defined.

Lemma to_json_sorted_by_name_witness :
  (forall ep, In ep [ep_a; ep_b] ->
     exists n, assoc_get "name" (endpoint_data rc_value ep) = Some (JVal (VStr n)))
  /\ to_json rc_value (schema_of "Admin" [ep_b; ep_a])
     = to_json rc_value (schema_of "Admin" [ep_a; ep_b]).
Proof.
  assert (Hn : forall ep, In ep [ep_a; ep_b] ->
     exists n, assoc_get "name" (endpoint_data rc_value ep) = Some (JVal (VStr n)))
    by (intros ep [<-|[<-|[]]]; eexists; reflexivity).
  split; [exact Hn|].
  apply (proj2 (to_json_sorted_by_name rc_value "Admin" [ep_a; ep_b] Hn)).
  - apply perm_swap.
  - repeat constructor; simpl; intuition discriminate.
Defined.

Lemma validators_identical_witness :
  pg_init users None false = inr (resource_of_skip users)
  /\ r_create_validator (resource_of_skip users) = r_update_validator (resource_of_skip users).
Proof.
  split; [reflexivity|].
  exact (proj1 (@validators_identical Demo.backend users None false _ eq_refl)).
Defined.

End Witnesses.

(** * Further properties *)

Section Extras.
Context `{B : Backend} `{C : GrpcClient}.

(** ** Shapes of the effect log *)

Lemma logs_ret {A} P (a : A) : P [] -> logs P (ret a).
Proof. intros HP st; exists []; split; [now rewrite app_nil_r | exact HP]. Qed.

Lemma logs_raise {A} P e : P [] -> logs P (@raise A e).
Proof. intros HP st; exists []; split; [now rewrite app_nil_r | exact HP]. Qed.

Lemma logs_lift {A} P (r : exn + A) : P [] -> logs P (lift r).
Proof. intros HP st; exists []; split; [now rewrite app_nil_r | exact HP]. Qed.

Lemma logs_bind {A B'} (Q : event -> Prop) (m : M A) (k : A -> M B') :
  logs (Forall Q) m -> (forall a, logs (Forall Q) (k a)) ->
  logs (Forall Q) (bind m k).
Proof.
  intros Hm Hk st; unfold bind.
  destruct (Hm st) as [evs1 [E1 F1]].
  destruct (m st) as [[e|a] st'] eqn:Em; simpl in *.
  - now exists evs1.
  - destruct (Hk a st') as [evs2 [E2 F2]].
    exists (evs1 ++ evs2); split; [now rewrite E2, E1, app_assoc|].
    now apply Forall_app.
Qed.

Lemma logs_catch_grpc {A} P (m : M A) : logs P m -> logs P (catch_grpc m).
Proof.
  intros Hm st; destruct (Hm st) as [evs E]; exists evs; unfold catch_grpc.
  destruct (m st) as [[[]|a] st']; exact E.
Qed.

Lemma logs_with_conn {A} (Q : event -> Prop) (m : M A) :
  Q EAcquire -> Q ERelease -> logs (Forall Q) m -> logs (Forall Q) (with_conn m).
Proof.
  intros Ha Hr Hm st; unfold with_conn.
  destruct (Hm (log EAcquire st)) as [evs [E F]].
  destruct (m (log EAcquire st)) as [r st'] eqn:Em; simpl in *.
  exists (EAcquire :: evs ++ [ERelease]); split.
  - rewrite E; simpl; now rewrite <- !app_assoc.
  - constructor; [exact Ha | apply Forall_app; auto].
Qed.

Ltac logs_tac :=
  repeat (cbv beta zeta;
    match goal with
    | |- logs _ (bind _ _) => apply logs_bind; [ | intro ]
    | |- logs _ (with_conn _) =>
        apply logs_with_conn; [reflexivity | reflexivity | ]
    | |- logs _ (catch_grpc _) => apply logs_catch_grpc
    | |- logs _ (match ?x with _ => _ end) => destruct x
    | |- logs _ (ret _) => apply logs_ret; constructor
    | |- logs _ (raise _) => apply logs_raise; constructor
    | |- logs _ (lift _) => apply logs_lift; constructor
    | |- logs _ _ =>
        solve [intro; eexists; split; [simpl; reflexivity | repeat constructor]]
    end).

Lemma scoped_of_nodb {A} (m : M A) :
  logs (Forall (fun ev => db_event ev = false)) m -> logs conn_scoped m.
Proof.
  intros Hm st; destruct (Hm st) as [evs [E F]].
  exists evs; split; [exact E | now left].
Qed.

Lemma scoped_bind_l {A B'} (m : M A) (k : A -> M B') :
  logs (Forall (fun ev => db_event ev = false)) m ->
  (forall a, logs conn_scoped (k a)) -> logs conn_scoped (bind m k).
Proof.
  unfold conn_scoped, no_db_access; intros Hm Hk st; unfold bind.
  destruct (Hm st) as [evs1 [E1 F1]].
  destruct (m st) as [[e|a] st'] eqn:Em; simpl in *.
  - exists evs1; split; [exact E1 | now left].
  - destruct (Hk a st') as [evs2 [E2 S2]].
    exists (evs1 ++ evs2); split; [now rewrite E2, E1, app_assoc|].
    destruct S2 as [N2 | (pre & mid & post & -> & Npre & Npost & Fmid)].
    + left; now apply Forall_app.
    + right; exists (evs1 ++ pre), mid, post; repeat split; auto.
      * now rewrite <- app_assoc.
      * now apply Forall_app.
Qed.

Lemma scoped_bind_r {A B'} (m : M A) (k : A -> M B') :
  logs conn_scoped m ->
  (forall a, logs (Forall (fun ev => db_event ev = false)) (k a)) ->
  logs conn_scoped (bind m k).
Proof.
  unfold conn_scoped, no_db_access; intros Hm Hk st; unfold bind.
  destruct (Hm st) as [evs1 [E1 S1]].
  destruct (m st) as [[e|a] st'] eqn:Em; simpl in *.
  - now exists evs1.
  - destruct (Hk a st') as [evs2 [E2 F2]].
    exists (evs1 ++ evs2); split; [now rewrite E2, E1, app_assoc|].
    destruct S1 as [N1 | (pre & mid & post & -> & Npre & Npost & Fmid)].
    + left; now apply Forall_app.
    + right; exists pre, mid, (post ++ evs2); repeat split; auto.
      * rewrite <- !app_assoc; simpl; now rewrite <- !app_assoc.
      * now apply Forall_app.
Qed.

Lemma scoped_with_conn {A} (m : M A) :
  logs (Forall (fun ev => pool_event ev = false)) m -> logs conn_scoped (with_conn m).
Proof.
  intros Hm st; unfold with_conn.
  destruct (Hm (log EAcquire st)) as [evs [E F]].
  destruct (m (log EAcquire st)) as [r st'] eqn:Em; simpl in *.
  exists (EAcquire :: evs ++ [ERelease]); split.
  - rewrite E; simpl; now rewrite <- !app_assoc.
  - right; exists [], evs, []; repeat split; auto; constructor.
Qed.

Ltac scoped_tac :=
  repeat (cbv beta zeta;
    match goal with
    | |- logs conn_scoped (bind _ _) =>
        first [ apply scoped_bind_l; [solve [logs_tac] | intro]
              | apply scoped_bind_r; [ | intro; solve [logs_tac]] ]
    | |- logs conn_scoped (with_conn _) => apply scoped_with_conn; logs_tac
    | |- logs conn_scoped (match ?x with _ => _ end) => destruct x
    | |- logs conn_scoped _ => apply scoped_of_nodb; solve [logs_tac]
    end).

Ltac unfold_handlers :=
  unfold handler, pg_list, pg_detail, pg_create, pg_update, pg_delete,
    asyncpg_list, asyncpg_detail, asyncpg_create, asyncpg_update,
    asyncpg_delete, mysql_create, mysql_update, grpc_update, grpc_create,
    grpc_delete, require, read_body, rpc_update, rpc_create, rpc_delete,
    dict_of, q_commit.

(** ** Keeping the store *)

Lemma keeps_bind {A B'} (m : M A) (k : A -> M B') :
  keeps_store m -> (forall a, keeps_store (k a)) -> keeps_store (bind m k).
Proof.
  intros Hm Hk st; unfold bind.
  destruct (Hm st) as [R1 S1].
  destruct (m st) as [[e|a] st'] eqn:Em; simpl in *; [auto|].
  destruct (Hk a st') as [R2 S2]; split; congruence.
Qed.

Lemma keeps_with_conn {A} (m : M A) : keeps_store m -> keeps_store (with_conn m).
Proof.
  intros Hm st; unfold with_conn.
  destruct (Hm (log EAcquire st)) as [R S].
  destruct (m (log EAcquire st)) as [r st'] eqn:Em; simpl in *; auto.
Qed.

Lemma keeps_catch_grpc {A} (m : M A) : keeps_store m -> keeps_store (catch_grpc m).
Proof.
  intros Hm st; destruct (Hm st) as [R S]; unfold catch_grpc.
  destruct (m st) as [[[]|a] st']; auto.
Qed.

Ltac keeps_tac :=
  repeat (cbv beta zeta;
    match goal with
    | |- keeps_store (bind _ _) => apply keeps_bind; [ | intro ]
    | |- keeps_store (with_conn _) => apply keeps_with_conn
    | |- keeps_store (catch_grpc _) => apply keeps_catch_grpc
    | |- keeps_store (match ?x with _ => _ end) => destruct x
    | |- keeps_store _ => solve [intro; split; reflexivity]
    end).

(** ** Connections *)

(** Every operation of every variant uses at most one pooled connection
    and releases it, whatever the outcome (an exception raised inside the
    [async with] block included): the database events it logs are either
    none, or one [acquire] ... [release] span that holds every statement. *)
Theorem one_connection_per_request v o r req st :
  exists evs,
    st_log (snd (handler v o r req st)) = st_log st ++ evs /\ conn_scoped evs.
Proof.
  revert st; change (logs conn_scoped (handler v o r req)).
  destruct v, o; unfold_handlers; scoped_tac.
Qed.

(** ** Reads never write *)

(** The list and detail operations of every variant never change the rows
    or the id sequence, whether they succeed or raise. *)
Theorem list_detail_read_only v r req :
  keeps_store (handler v OpList r req) /\ keeps_store (handler v OpDetail r req).
Proof. split; destruct v; unfold_handlers; keeps_tac. Qed.


Ltac run_m :=
  unfold bind, emit, lift, ret, raise, with_conn, catch_grpc, q_select_pk,
    q_update_pk, q_delete_pk, q_insert, q_insert_lastrowid, q_count, q_fetch,
    log; simpl.

(** ** Rejected input *)

(** A create or update whose payload fails validation raises the
    validator's error right after the permission check and the body read,
    for every variant: no connection, statement or RPC call, and the rows
    and the id sequence are unchanged. *)
Theorem invalid_payload_rejected v r req st e :
  (permits req add = true ->
   validate_payload (body req) (r_create_validator r) = inl e ->
   handler v OpCreate r req st = (inl e, log EReadBody (log (ERequire add) st)))
  /\ (permits req edit = true ->
      validate_payload (body req) (r_update_validator r) = inl e ->
      handler v OpUpdate r req st = (inl e, log EReadBody (log (ERequire edit) st))).
Proof.
  split; intros Hp Hval; destruct v; unfold_handlers; run_m;
    rewrite Hp; simpl; rewrite Hval; reflexivity.
Qed.

(** A list request whose query string fails [validate_query] raises that
    error right after the permission check, before any connection is
    acquired, in every variant. *)
Theorem list_query_rejected v r req st e :
  permits req view = true ->
  validate_query (query req) (map c_name (t_cols (r_table r))) = inl e ->
  handler v OpList r req st = (inl e, log (ERequire view) st).
Proof.
  intros Hp Hq; destruct v; unfold_handlers; run_m;
    rewrite Hp; simpl; rewrite Hq; reflexivity.
Qed.

(** ** Detail and missing rows *)

(** Detail answers with the first row whose key matches the bound path
    id, or raises [ObjectNotFound]; the SQL updates raise the same
    [ObjectNotFound] for a missing row.  Its argument is the message
    ["Entity with id: <id> not found"] in PGResource and MySQLResource but
    the bound id itself in AsyncpgResource (and AsyncpgGrpcResource). *)
Theorem detail_and_not_found v r req st data :
  (permits req view = true ->
   fst (handler v OpDetail r req st)
     = match find (row_matches (r_pk r) (bound_id v (entity_id req))) (st_rows st) with
       | Some row => inr (json_response (json_of_row row) [])
       | None => inl (ObjectNotFound (not_found_arg v (entity_id req)))
       end)
  /\ (v <> AsyncpgGrpcResource -> permits req edit = true ->
      validate_payload (body req) (r_update_validator r) = inr data ->
      find (row_matches (r_pk r) (bound_id v (entity_id req))) (st_rows st) = None ->
      fst (handler v OpUpdate r req st)
        = inl (ObjectNotFound (not_found_arg v (entity_id req)))).
Proof.
  split.
  - intros Hp; destruct v; unfold_handlers; run_m; rewrite Hp; simpl;
      destruct (find _ _); reflexivity.
  - intros Hv Hp Hval Hf; destruct v; try congruence; unfold_handlers; run_m;
      rewrite Hp; simpl; rewrite Hval; simpl; unfold bound_id in Hf;
      rewrite Hf; reflexivity.
Qed.

(** ** Updating an existing row *)

Lemma update_row_keeps_pk pk data r :
  assoc_get pk data = None -> assoc_get pk (update_row data r) = assoc_get pk r.
Proof.
  induction r as [|[k v] r IH]; simpl; intros H; auto.
  destruct (String.eqb_spec pk k); [subst; now rewrite H | auto].
Qed.

Lemma update_row_sets_pk pk data r v' :
  assoc_get pk data = Some v' -> assoc_get pk r <> None ->
  assoc_get pk (update_row data r) = Some v'.
Proof.
  induction r as [|[k v] r IH]; simpl; intros H Hr; [congruence|].
  destruct (String.eqb_spec pk k); [subst; now rewrite H | auto].
Qed.

Lemma update_row_idem data r : update_row data (update_row data r) = update_row data r.
Proof.
  unfold update_row; rewrite map_map; apply map_ext; intros [k v]; simpl.
  destruct (assoc_get k data); reflexivity.
Qed.

Lemma find_map_same {A} (f : A -> bool) (h : A -> A) l :
  (forall x, f (h x) = f x) -> find f (map h l) = option_map h (find f l).
Proof.
  intros Hh; induction l as [|x l IH]; simpl; auto.
  rewrite Hh; destruct (f x); auto.
Qed.

Lemma row_matches_update pk k data r :
  assoc_get pk data = None ->
  row_matches pk k (update_row data r) = row_matches pk k r.
Proof. intros H; unfold row_matches; now rewrite update_row_keeps_pk. Qed.

(** The three SQL updates on a row that exists, when the payload leaves the
    key alone. *)
Lemma sql_update_found v r req st data row0 :
  v <> AsyncpgGrpcResource -> permits req edit = true ->
  validate_payload (body req) (r_update_validator r) = inr data ->
  assoc_get (r_pk r) data = None ->
  find (row_matches (r_pk r) (bound_id v (entity_id req))) (st_rows st) = Some row0 ->
  fst (handler v OpUpdate r req st)
    = inr (json_response (json_of_row (update_row data row0)) [])
  /\ st_rows (snd (handler v OpUpdate r req st))
     = map (fun row => if row_matches (r_pk r) (bound_id v (entity_id req)) row
                       then update_row data row else row) (st_rows st)
  /\ st_seq (snd (handler v OpUpdate r req st)) = st_seq st.
Proof.
  intros Hv Hp Hval Hpk Hf.
  assert (Hm : row_matches (r_pk r) (bound_id v (entity_id req)) row0 = true)
    by (apply (find_some _ _ Hf)).
  destruct v; try congruence; unfold_handlers; run_m;
    rewrite Hp; simpl; rewrite Hval; simpl; unfold bound_id in Hf, Hm;
    repeat (rewrite Hf; simpl).
  1-2: repeat split.
  rewrite find_map_same.
  - rewrite Hf; simpl; rewrite Hm; repeat split.
  - intros x; destruct (row_matches _ _ x) eqn:E; auto.
    now rewrite row_matches_update.
Qed.

Lemma pg_init_validators t fields skip_pk r :
  pg_init t fields skip_pk = inr r ->
  r_create_validator r = table_to_trafaret t (r_pk r) skip_pk
  /\ r_update_validator r = table_to_trafaret t (r_pk r) skip_pk.
Proof.
  unfold pg_init; destruct (filter c_pk (t_cols t)); [discriminate|].
  intros H; injection H as <-; simpl; auto.
Qed.

(** With the default [skip_pk], an update of an existing row answers, in
    PGResource, AsyncpgResource and MySQLResource alike, with the first
    matching row after the payload's columns are set; every matching row
    is updated, the key is left as it was, and MySQLResource's re-select
    finds the same row. *)
Theorem update_returns_updated_row v t fields r req st data row0 :
  pg_init t fields true = inr r ->
  v <> AsyncpgGrpcResource -> permits req edit = true ->
  validate_payload (body req) (r_update_validator r) = inr data ->
  find (row_matches (r_pk r) (bound_id v (entity_id req))) (st_rows st) = Some row0 ->
  fst (handler v OpUpdate r req st)
    = inr (json_response (json_of_row (update_row data row0)) [])
  /\ st_rows (snd (handler v OpUpdate r req st))
     = map (fun row => if row_matches (r_pk r) (bound_id v (entity_id req)) row
                       then update_row data row else row) (st_rows st)
  /\ assoc_get (r_pk r) (update_row data row0) = assoc_get (r_pk r) row0.
Proof.
  intros Hinit Hv Hp Hval Hf.
  destruct (pg_init_validators _ _ _ _ Hinit) as [_ Hu].
  rewrite Hu in Hval.
  pose proof (validate_skip_pk_excludes _ _ _ _ Hval) as Hpk.
  rewrite <- Hu in Hval.
  destruct (sql_update_found v r req st data row0 Hv Hp Hval Hpk Hf) as [H1 [H2 _]].
  split; [exact H1|]; split; [exact H2|].
  now apply update_row_keeps_pk.
Qed.

(** With the default [skip_pk], sending the same update twice leaves the
    rows as the first one left them and gets the same answer. *)
Theorem update_idempotent v t fields r req st data row0 :
  pg_init t fields true = inr r ->
  v <> AsyncpgGrpcResource -> permits req edit = true ->
  validate_payload (body req) (r_update_validator r) = inr data ->
  find (row_matches (r_pk r) (bound_id v (entity_id req))) (st_rows st) = Some row0 ->
  let st1 := snd (handler v OpUpdate r req st) in
  fst (handler v OpUpdate r req st1) = fst (handler v OpUpdate r req st)
  /\ st_rows (snd (handler v OpUpdate r req st1)) = st_rows st1.
Proof.
  intros Hinit Hv Hp Hval Hf st1.
  destruct (pg_init_validators _ _ _ _ Hinit) as [_ Hu].
  rewrite Hu in Hval.
  pose proof (validate_skip_pk_excludes _ _ _ _ Hval) as Hpk.
  rewrite <- Hu in Hval.
  set (k := bound_id v (entity_id req)) in *.
  set (h := fun row => if row_matches (r_pk r) k row then update_row data row else row).
  assert (Hh : forall x, row_matches (r_pk r) k (h x) = row_matches (r_pk r) k x).
  { intros x; unfold h; destruct (row_matches _ _ x) eqn:E; auto.
    now rewrite row_matches_update. }
  destruct (sql_update_found v r req st data row0 Hv Hp Hval Hpk Hf) as [H1 [H2 _]].
  fold k h in H1, H2.
  assert (Hf1 : find (row_matches (r_pk r) k) (st_rows st1) = Some (update_row data row0)).
  { unfold st1; rewrite H2; fold h; rewrite find_map_same, Hf by exact Hh; simpl.
    unfold h; now rewrite (proj2 (find_some _ _ Hf)). }
  destruct (sql_update_found v r req st1 data (update_row data row0) Hv Hp Hval Hpk Hf1)
    as [H3 [H4 _]].
  fold k h in H3, H4.
  split.
  - rewrite H3, H1, update_row_idem; reflexivity.
  - rewrite H4.
    replace (st_rows st1) with (map h (st_rows st)) by (unfold st1; symmetry; exact H2).
    rewrite map_map; apply map_ext; intros x; unfold h.
    destruct (row_matches _ _ x) eqn:E; cbv beta iota.
    + rewrite row_matches_update, E by exact Hpk; apply update_row_idem.
    + rewrite E; reflexivity.
Qed.

(** MySQLResource.update with a payload that sets the key to a value the
    path id does not match (possible with [skip_pk=False]) updates and
    commits the matching rows, then re-selects by the old id, finds
    nothing and raises [TypeError] from [dict(None)]. *)
Theorem mysql_update_key_change_type_error r req st data v' :
  permits req edit = true ->
  validate_payload (body req) (r_update_validator r) = inr data ->
  assoc_get (r_pk r) data = Some v' ->
  pk_match v' (VStr (entity_id req)) = false ->
  (exists row, In row (st_rows st)
     /\ row_matches (r_pk r) (VStr (entity_id req)) row = true) ->
  fst (handler MySQLResource OpUpdate r req st) = inl TypeError
  /\ st_rows (snd (handler MySQLResource OpUpdate r req st))
     = map (fun row => if row_matches (r_pk r) (VStr (entity_id req)) row
                       then update_row data row else row) (st_rows st)
  /\ In ECommit (st_log (snd (handler MySQLResource OpUpdate r req st))).
Proof.
  intros Hp Hval Hpk Hv' [row1 [Hin Hm1]].
  set (k := VStr (entity_id req)) in *.
  destruct (find (row_matches (r_pk r) k) (st_rows st)) as [row0|] eqn:Hf.
  2: { rewrite (find_none _ _ Hf row1 Hin) in Hm1; discriminate. }
  assert (Hnone : find (row_matches (r_pk r) k)
                    (map (fun row => if row_matches (r_pk r) k row
                                     then update_row data row else row) (st_rows st))
                  = None).
  { apply find_all_false; intros x Hx; apply in_map_iff in Hx as [y [<- Hy]].
    destruct (row_matches (r_pk r) k y) eqn:E; auto.
    unfold row_matches in *.
    destruct (assoc_get (r_pk r) y) eqn:Ey; [|discriminate].
    rewrite (update_row_sets_pk _ _ _ _ Hpk) by congruence; exact Hv'. }
  unfold_handlers; run_m; rewrite Hp; simpl; rewrite Hval; simpl.
  fold k; rewrite Hf; simpl.
  rewrite Hnone; simpl; split; [reflexivity|]; split; [reflexivity|].
  rewrite <- !app_assoc; apply in_or_app; right; simpl; tauto.
Qed.

(** ** The gRPC variant after a successful call *)


(** ** Pagination *)

Lemma with_id_ok_length pk l l' : map_with_id pk l = inr l' -> List.length l' = List.length l.
Proof.
  revert l'; induction l as [|x l IH]; simpl; intros l' H.
  - now injection H as <-.
  - destruct (with_id pk x), (map_with_id pk l) eqn:E; try discriminate.
    injection H as <-; simpl; f_equal; auto.
Qed.

(** When the database's ORDER BY keeps every row (as sorting does), a list
    answer holds exactly [min(limit, count - offset)] entries, [count]
    being the number of rows the filter selects, in every variant. *)
Theorem list_page_size v r req st q resp :
  permits req view = true ->
  validate_query (query req) (map c_name (t_cols (r_table r))) = inr q ->
  (forall f d l, List.length (sql_order f d l) = List.length l) ->
  fst (handler v OpList r req st) = inr resp ->
  exists items, resp_body resp = JArr items
    /\ List.length items
       = Nat.min (limit (calc_pagination q (r_pk r)))
           (List.length (filter (list_selection (r_table r) (q_filters q)) (st_rows st))
            - offset (calc_pagination q (r_pk r))).
Proof.
  intros Hp Hq Hord.
  destruct v; unfold_handlers; run_m; rewrite Hp; simpl; rewrite Hq; simpl;
    [ | destruct (map_with_id _ _) as [|l'] eqn:E; simpl; [discriminate|]
      | | destruct (map_with_id _ _) as [|l'] eqn:E; simpl; [discriminate|] ];
    intros H; injection H as <-; eexists; split; try reflexivity;
    try (rewrite length_map; rewrite ?(with_id_ok_length _ _ _ E));
    rewrite ?length_map, length_firstn, length_skipn, Hord; reflexivity.
Qed.

(** ** Deleting twice *)

Lemma filter_idem {A} (f : A -> bool) l : filter f (filter f l) = filter f l.
Proof.
  induction l as [|x l IH]; simpl; auto.
  destruct (f x) eqn:E; simpl; [rewrite E|]; congruence.
Qed.

(** The SQL deletes are idempotent: repeating a delete answers
    [{"status": "deleted"}] again and leaves the rows as the first one
    left them. *)
Theorem sql_delete_idempotent v r req st :
  v <> AsyncpgGrpcResource -> permits req delete = true ->
  let st1 := snd (handler v OpDelete r req st) in
  fst (handler v OpDelete r req st1) = inr (json_response status_deleted [])
  /\ st_rows (snd (handler v OpDelete r req st1)) = st_rows st1.
Proof.
  intros Hv Hp; destruct v; try congruence; unfold_handlers; run_m;
    repeat (rewrite Hp; simpl); split; auto; apply filter_idem.
Qed.

End Extras.

(** ** Python dict updates *)

Lemma dict_set_get {A} k k' (v : A) d :
  assoc_get k (dict_set k' v d) = if String.eqb k k' then Some v else assoc_get k d.
Proof.
  induction d as [|[k0 v0] d IH]; simpl; [reflexivity|].
  destruct (String.eqb_spec k' k0) as [<-|Hne]; simpl.
  - destruct (String.eqb k k'); reflexivity.
  - rewrite IH; destruct (String.eqb_spec k k0), (String.eqb_spec k k');
      subst; congruence.
Qed.

Lemma dict_set_keys {A} k (v : A) d :
  map fst (dict_set k v d)
  = if in_keys k (map fst d) then map fst d else map fst d ++ [k].
Proof.
  unfold in_keys; induction d as [|[k0 v0] d IH]; simpl; [reflexivity|].
  destruct (String.eqb_spec k k0) as [->|Hne]; simpl; [reflexivity|].
  rewrite IH; destruct (existsb _ _); reflexivity.
Qed.

Lemma in_keys_spec k l : in_keys k l = true <-> In k l.
Proof.
  unfold in_keys; rewrite existsb_exists; split.
  - intros [x [Hx E]]; apply String.eqb_eq in E; now subst.
  - intros H; exists k; split; [exact H | apply String.eqb_refl].
Qed.

Lemma fold_dict_set_get {A} (rec init : list (string * A)) k :
  NoDup (map fst rec) ->
  assoc_get k (fold_left (fun d kv => dict_set (fst kv) (snd kv) d) rec init)
  = match assoc_get k rec with Some v => Some v | None => assoc_get k init end.
Proof.
  revert init; induction rec as [|[k0 v0] rec IH]; simpl; intros init Hnd; auto.
  inversion Hnd as [|? ? Hn Hnd']; subst.
  rewrite IH by exact Hnd'; rewrite dict_set_get.
  destruct (String.eqb_spec k k0) as [->|Hne].
  - destruct (assoc_get k0 rec) eqn:E; [|reflexivity].
    exfalso; apply Hn; eapply assoc_get_in; eauto.
  - destruct (assoc_get k rec); reflexivity.
Qed.

Lemma fold_dict_set_keys {A} (rec init : list (string * A)) :
  NoDup (map fst rec) ->
  map fst (fold_left (fun d kv => dict_set (fst kv) (snd kv) d) rec init)
  = map fst init ++ filter (fun k => negb (in_keys k (map fst init))) (map fst rec).
Proof.
  revert init; induction rec as [|[k0 v0] rec IH]; simpl; intros init Hnd.
  - now rewrite app_nil_r.
  - inversion Hnd as [|? ? Hn Hnd']; subst.
    rewrite IH by exact Hnd'; rewrite dict_set_keys.
    destruct (in_keys k0 (map fst init)) eqn:E; simpl; [reflexivity|].
    rewrite <- app_assoc; simpl; f_equal; f_equal.
    apply filter_ext_in; intros k Hk; f_equal.
    unfold in_keys in *; rewrite existsb_app; simpl.
    destruct (String.eqb_spec k k0) as [->|]; [contradiction|].
    now rewrite orb_false_r.
Qed.

(** AsyncpgResource.list's [{"id": rec[pk], **rec}] on a record with
    distinct keys: it raises [KeyError] exactly when the record has no
    primary-key column; otherwise ["id"] comes first, every other key
    keeps its value and its order, and ["id"] holds the record's own
    ["id"] column when it has one, the primary key's value only when it
    has none. *)
Theorem with_id_merge pk rec :
  NoDup (map fst rec) ->
  match with_id pk rec with
  | inr d =>
      assoc_get "id" d
        = match assoc_get "id" rec with
          | Some v => Some v
          | None => assoc_get pk rec
          end
      /\ (forall k, k <> "id" -> assoc_get k d = assoc_get k rec)
      /\ map fst d = "id" :: filter (fun k => negb (String.eqb k "id")) (map fst rec)
  | inl e => e = KeyError /\ assoc_get pk rec = None
  end.
Proof.
  intros Hnd; unfold with_id.
  destruct (assoc_get pk rec) as [v|] eqn:Hpk; [|split; reflexivity].
  split; [|split].
  - rewrite fold_dict_set_get by exact Hnd; reflexivity.
  - intros k Hk; rewrite fold_dict_set_get by exact Hnd; simpl.
    destruct (String.eqb_spec k "id"); [contradiction|].
    destruct (assoc_get k rec); reflexivity.
  - rewrite fold_dict_set_keys by exact Hnd; simpl; f_equal.
    apply filter_ext; intros k; unfold in_keys; simpl; now rewrite orb_false_r.
Qed.

(** [endpoint_data]: the endpoint's [to_dict()] with ["fields"] set to the
    field types; every other key keeps its value, and the key order is
    kept (["fields"] is added last when [to_dict()] has none). *)
Theorem endpoint_data_fields rc_value ep :
  assoc_get "fields" (endpoint_data rc_value ep)
    = Some (fields_json rc_value (get_type_of_fields (ep_fields ep) (ep_table ep)))
  /\ (forall k, k <> "fields" ->
        assoc_get k (endpoint_data rc_value ep) = assoc_get k (ep_dict ep))
  /\ map fst (endpoint_data rc_value ep)
     = if in_keys "fields" (map fst (ep_dict ep)) then map fst (ep_dict ep)
       else map fst (ep_dict ep) ++ ["fields"].
Proof.
  unfold endpoint_data; split; [|split].
  - rewrite dict_set_get; reflexivity.
  - intros k Hk; rewrite dict_set_get.
    destruct (String.eqb_spec k "fields"); [contradiction | reflexivity].
  - apply dict_set_keys.
Qed.

(** ** Registry errors and order *)

Lemma name_keys_key_error ds :
  (forall d, In d ds -> assoc_get "name" d = None
                        \/ exists n, assoc_get "name" d = Some (JVal (VStr n))) ->
  (exists d, In d ds /\ assoc_get "name" d = None) ->
  name_keys ds = inl KeyError.
Proof.
  induction ds as [|d ds IH]; simpl; intros Hall [d0 [Hin Hn]]; [contradiction|].
  destruct (Hall d (or_introl eq_refl)) as [E|[n E]]; rewrite E; [reflexivity|].
  destruct Hin as [<-|Hin]; [congruence|].
  rewrite IH; auto; eauto.
Qed.

(** [to_json] raises [KeyError] when an endpoint's [to_dict()] has no
    ["name"] and every other name present is a string: the sort key
    [x['name']] is computed for every descriptor before sorting. *)
Theorem to_json_missing_name rc_value ttl eps :
  (forall ep, In ep eps ->
     assoc_get "name" (ep_dict ep) = None
     \/ exists n, assoc_get "name" (ep_dict ep) = Some (JVal (VStr n))) ->
  (exists ep, In ep eps /\ assoc_get "name" (ep_dict ep) = None) ->
  to_json rc_value (schema_of ttl eps) = inl KeyError.
Proof.
  intros Hall [ep0 [Hin0 Hn0]].
  assert (Hname : forall ep, assoc_get "name" (endpoint_data rc_value ep)
                             = assoc_get "name" (ep_dict ep))
    by (intros ep; unfold endpoint_data; rewrite dict_set_get; reflexivity).
  unfold to_json, sorted_by_name.
  destruct (schema_of_fold ttl eps) as [_ ->].
  rewrite name_keys_key_error; [reflexivity| |].
  - intros d Hd; apply in_map_iff in Hd as [ep [<- Hep]]; rewrite Hname; auto.
  - exists (endpoint_data rc_value ep0); split; [now apply in_map|].
    now rewrite Hname.
Qed.

(** ** Field selection *)

Lemma filter_all_false {A} (f : A -> bool) l :
  (forall x, In x l -> f x = false) -> filter f l = [].
Proof.
  induction l as [|x l IH]; simpl; intros H; auto.
  rewrite (H x (or_introl eq_refl)); apply IH; auto.
Qed.

Lemma pk_names_filter t :
  NoDup (map c_name (t_cols t)) ->
  filter (fun c => in_keys (c_name c) (table_primary_key t)) (t_cols t)
  = filter c_pk (t_cols t).
Proof.
  intros Hnd; apply filter_ext_in; intros c Hc.
  apply Bool.eq_iff_eq_true; rewrite in_keys_spec; unfold table_primary_key.
  split.
  - intros Hn; apply in_map_iff in Hn as [c' [En Hc']].
    apply filter_In in Hc' as [Hc' Hpk].
    now rewrite <- (NoDup_map_same c_name _ c' c Hnd Hc' Hc En).
  - intros Hpk; apply in_map, filter_In; auto.
Qed.

(** [get_type_of_fields] with no [fields] (or an empty list) lists the
    primary-key columns, with ["*"] every column, both in table order
    (column keys being unique, as in [table.c]). *)
Theorem fields_default_and_all t :
  NoDup (map c_name (t_cols t)) ->
  get_type_of_fields None t
    = map (fun c => (c_name c, field_type_of (c_type c))) (filter c_pk (t_cols t))
  /\ get_type_of_fields (Some (FNames [])) t = get_type_of_fields None t
  /\ get_type_of_fields (Some FAll) t
     = map (fun c => (c_name c, field_type_of (c_type c))) (t_cols t).
Proof.
  intros Hnd; unfold get_type_of_fields; simpl.
  rewrite pk_names_filter by exact Hnd; auto.
Qed.

(** With a list of names, [get_type_of_fields] keeps the table's columns
    in table order whose key is in the list: the order and repetitions of
    the list and names that are not columns make no difference, and a list
    naming no column gives an empty mapping (no fallback to the key). *)
Theorem fields_selection_by_membership t l l' :
  (l <> [] -> l' <> [] ->
   (forall n, In n (map c_name (t_cols t)) -> (In n l <-> In n l')) ->
   get_type_of_fields (Some (FNames l)) t = get_type_of_fields (Some (FNames l')) t)
  /\ (l <> [] -> (forall n, In n l -> ~ In n (map c_name (t_cols t))) ->
      get_type_of_fields (Some (FNames l)) t = []).
Proof.
  split.
  - intros Hl Hl' Hiff; destruct l as [|x l]; [congruence|];
      destruct l' as [|x' l']; [congruence|].
    unfold get_type_of_fields; f_equal.
    apply filter_ext_in; intros c Hc; apply Bool.eq_iff_eq_true.
    rewrite !in_keys_spec; apply Hiff, in_map, Hc.
  - intros Hl Hnone; destruct l as [|x l]; [congruence|].
    unfold get_type_of_fields.
    rewrite (filter_all_false _ (t_cols t)); [reflexivity|].
    intros c Hc; destruct (in_keys (c_name c) (x :: l)) eqn:E; [|reflexivity].
    apply in_keys_spec in E; exfalso; apply (Hnone _ E), in_map, Hc.
Qed.

(** ** The two descriptor tables *)

(** FIELD_TYPES and INPUT_TYPES agree, for every column type (unlisted
    ones included): a date is shown as a date field exactly when it is
    edited with a date input, likewise booleans (nullable boolean input)
    and JSON, and the text input is used exactly for what is shown as a
    text or number field. *)
Theorem field_input_types_agree ty :
  (field_type_of ty = DATE_FIELD <-> input_type_of ty = DATE_INPUT)
  /\ (field_type_of ty = BOOLEAN_FIELD <-> input_type_of ty = NULLABLE_BOOLEAN_INPUT)
  /\ (field_type_of ty = JSON_FIELD <-> input_type_of ty = JSON_INPUT)
  /\ (input_type_of ty = TEXT_INPUT
      <-> field_type_of ty = TEXT_FIELD \/ field_type_of ty = NUMBER_FIELD).
Proof. destruct ty; cbv; intuition discriminate. Qed.

(** ** [int()] of a decimal text *)
















(** ** Concrete instances of the further properties *)

Module ExtraWitnesses.
Import Demo.
#[local] Existing Instance Demo.backend.
#[local] Existing Instance Demo.client.

(** A create whose body does not parse. *)
Lemma invalid_payload_rejected_witness :
  permits (req "1" "garbage") add = true
  /\ validate_payload (body (req "1" "garbage")) (r_create_validator users_res)
     = inl ValidationError
  /\ handler PGResource OpCreate users_res (req "1" "garbage") empty
     = (inl ValidationError, log EReadBody (log (ERequire add) empty)).
Proof.
  split; [reflexivity|]; split; [reflexivity|].
  apply (proj1 (@invalid_payload_rejected Demo.backend Demo.client PGResource users_res
                  (req "1" "garbage") empty ValidationError)); reflexivity.
Defined.

(** A list request with an unknown query parameter, under a validator that
    refuses it. *)
Lemma list_query_rejected_witness :
  @validate_query Demo.strict_backend [("bogus", "1")]
       (map c_name (t_cols (r_table users_res))) = inl ValidationError
  /\ @handler Demo.strict_backend Demo.client MySQLResource OpList users_res
       (mkRequest "" "" [("bogus", "1")]) one_user
     = (inl ValidationError,
        @log (ERequire view) one_user).
Proof.
  split; [reflexivity|].
  apply (@list_query_rejected Demo.strict_backend Demo.client MySQLResource users_res
           (mkRequest "" "" [("bogus", "1")]) one_user ValidationError);
    reflexivity.
Defined.

(** AsyncpgResource on the missing id ["2"]: detail and update both raise
    [ObjectNotFound] with the integer [2]. *)
Lemma detail_and_not_found_witness :
  fst (handler AsyncpgResource OpDetail users_res (req "2" "name=Ann") one_user)
    = inl (ObjectNotFound (VInt 2))
  /\ fst (handler AsyncpgResource OpUpdate users_res (req "2" "name=Ann") one_user)
     = inl (ObjectNotFound (VInt 2)).
Proof.
  destruct (@detail_and_not_found Demo.backend Demo.client AsyncpgResource users_res
              (req "2" "name=Ann") one_user ann) as [H1 H2].
  split.
  - rewrite (H1 eq_refl); reflexivity.
  - exact (H2 ltac:(discriminate) eq_refl eq_refl eq_refl).
Defined.

Lemma update_returns_updated_row_witness :
  fst (handler AsyncpgResource OpUpdate users_res (req "1" "name=Ann") one_al)
    = inr (json_response
             (json_of_row [("id", VInt 1); ("name", VStr "Ann"); ("active", VNull)]) [])
  /\ st_rows (snd (handler AsyncpgResource OpUpdate users_res (req "1" "name=Ann") one_al))
     = [[("id", VInt 1); ("name", VStr "Ann"); ("active", VNull)]].
Proof.
  destruct (@update_returns_updated_row Demo.backend Demo.client AsyncpgResource users None
              users_res (req "1" "name=Ann") one_al ann
              [("id", VInt 1); ("name", VStr "Al"); ("active", VNull)]
              eq_refl ltac:(discriminate) eq_refl eq_refl eq_refl) as [H1 [H2 _]].
  split; [exact H1|]; rewrite H2; reflexivity.
Defined.

Lemma update_idempotent_witness :
  fst (handler AsyncpgResource OpUpdate users_res (req "1" "name=Ann")
         (snd (handler AsyncpgResource OpUpdate users_res (req "1" "name=Ann") one_al)))
  = fst (handler AsyncpgResource OpUpdate users_res (req "1" "name=Ann") one_al).
Proof.
  exact (proj1 (@update_idempotent Demo.backend Demo.client AsyncpgResource users None
                  users_res (req "1" "name=Ann") one_al ann
                  [("id", VInt 1); ("name", VStr "Al"); ("active", VNull)]
                  eq_refl ltac:(discriminate) eq_refl eq_refl eq_refl)).
Defined.

(** [skip_pk=False]: the payload ["id=5"] moves the row away from the
    path id ["1"]. *)
Lemma mysql_update_key_change_type_error_witness :
  fst (handler MySQLResource OpUpdate (resource_of_skip users) (req "1" "id=5") text_one)
    = inl TypeError
  /\ st_rows (snd (handler MySQLResource OpUpdate (resource_of_skip users) (req "1" "id=5")
                     text_one))
     = [[("id", VInt 5)]].
Proof.
  destruct (@mysql_update_key_change_type_error Demo.backend Demo.client
              (resource_of_skip users) (req "1" "id=5") text_one [("id", VInt 5)] (VInt 5)
              eq_refl eq_refl eq_refl eq_refl
              (ex_intro _ [("id", VStr "1")] (conj (or_introl eq_refl) eq_refl)))
    as [H1 [H2 _]].
  split; [exact H1|]; rewrite H2; reflexivity.
Defined.


(** Three rows, offset 1, limit 1: one entry, min(1, 3 - 1). *)
Lemma list_page_size_witness :
  fst (@handler paged_backend Demo.client AsyncpgResource OpList users_res (req "" "") three_users)
    = inr (json_response
             (JArr [JObj [("id", JVal (VInt 2)); ("name", JVal (VStr "Bob"));
                          ("active", JVal (VBool true))]])
             [("X-Total-Count", "3")])
  /\ exists items,
    JArr [JObj [("id", JVal (VInt 2)); ("name", JVal (VStr "Bob"));
                ("active", JVal (VBool true))]] = JArr items
    /\ List.length items = 1%nat.
Proof.
  assert (H : fst (@handler paged_backend Demo.client AsyncpgResource OpList users_res (req "" "")
                     three_users)
              = inr (json_response
                       (JArr [JObj [("id", JVal (VInt 2)); ("name", JVal (VStr "Bob"));
                                    ("active", JVal (VBool true))]])
                       [("X-Total-Count", "3")]))
    by (vm_compute; reflexivity).
  split; [exact H|].
  destruct (@list_page_size paged_backend Demo.client AsyncpgResource users_res (req "" "")
              three_users (mkQuerySpec [] []) _ eq_refl eq_refl
              ltac:(intros f [] l; simpl; [reflexivity | apply length_rev]) H)
    as [items [H1 H2]].
  exists items; split; [exact H1|]; rewrite H2; reflexivity.
Defined.

Lemma sql_delete_idempotent_witness :
  fst (handler PGResource OpDelete users_res (req "1" "")
         (snd (handler PGResource OpDelete users_res (req "1" "") text_one)))
    = inr (json_response status_deleted [])
  /\ st_rows (snd (handler PGResource OpDelete users_res (req "1" "")
                     (snd (handler PGResource OpDelete users_res (req "1" "") text_one))))
     = [].
Proof.
  destruct (@sql_delete_idempotent Demo.backend Demo.client PGResource users_res
              (req "1" "") text_one ltac:(discriminate) eq_refl) as [H1 H2].
  split; [exact H1|]; rewrite H2; reflexivity.
Defined.

(** A record whose key is [uid] and which has its own [id] column. *)
Lemma with_id_merge_witness :
  NoDup (map fst [("uid", VInt 1); ("id", VStr "x")])
  /\ match with_id "uid" [("uid", VInt 1); ("id", VStr "x")] with
     | inr d => assoc_get "id" d = Some (VStr "x")
     | inl _ => False
     end.
Proof.
  assert (Hnd : NoDup (map fst [("uid", VInt 1); ("id", VStr "x")]))
    by (repeat constructor; simpl; intuition discriminate).
  split; [exact Hnd|].
  pose proof (with_id_merge "uid" [("uid", VInt 1); ("id", VStr "x")] Hnd) as H.
  destruct (with_id "uid" [("uid", VInt 1); ("id", VStr "x")]) as [e|d] eqn:E.
  - vm_compute in E; discriminate.
  - destruct H as [H _]; rewrite H; reflexivity.
Defined.

Lemma endpoint_data_fields_witness :
  assoc_get "name" (endpoint_data rc_value ep_a) = Some (JVal (VStr "a")).
Proof.
  rewrite (proj1 (proj2 (endpoint_data_fields rc_value ep_a)) "name" ltac:(discriminate));
    reflexivity.
Defined.

(** A page whose [to_dict()] has no ["name"]. *)
Lemma to_json_missing_name_witness :
  to_json rc_value (schema_of "Admin" [ep_a; mkEndpoint None users []]) = inl KeyError.
Proof.
  apply to_json_missing_name.
  - intros ep [<-|[<-|[]]]; [right; eexists; reflexivity | left; reflexivity].
  - exists (mkEndpoint None users []); split; [right; left; reflexivity | reflexivity].
Defined.

Lemma fields_default_and_all_witness :
  get_type_of_fields None users = [("id", TEXT_FIELD)].
Proof.
  rewrite (proj1 (fields_default_and_all users
                    ltac:(repeat constructor; simpl; intuition discriminate))).
  reflexivity.
Defined.

Lemma fields_selection_by_membership_witness :
  get_type_of_fields (Some (FNames ["name"; "zzz"; "name"])) users
    = get_type_of_fields (Some (FNames ["name"])) users
  /\ get_type_of_fields (Some (FNames ["zzz"])) users = [].
Proof.
  split.
  - apply (proj1 (fields_selection_by_membership users ["name"; "zzz"; "name"] ["name"]));
      [discriminate | discriminate |].
    intros n [<-|[<-|[<-|[]]]]; simpl; split; intros H;
      repeat destruct H as [H|H]; try discriminate; tauto.
  - apply (proj2 (fields_selection_by_membership users ["zzz"] [])); [discriminate|].
    intros n [<-|[]]; simpl; intuition discriminate.
Defined.

Lemma field_input_types_agree_witness :
  input_type_of (OtherType "Numeric") = TEXT_INPUT.
Proof.
  apply (proj2 (proj2 (proj2 (proj2 (field_input_types_agree (OtherType "Numeric")))))).
  left; reflexivity.
Defined.


End ExtraWitnesses.
